(** * nanocode: a shallow embedding of [nanocode.py]

    The development models the tool executors, the registry dispatch
    ([run_tool]), the schema generator ([make_schema]), the Gemini message
    and response converters and the REPL / agent loop of [main], and proves
    properties of them.

    - Python values that cross the JSON boundary are modelled by [json];
      the code is duck-typed, so every access ([v[k]], [v.get], [k in v],
      iteration, [+]) is modelled with the exceptions it raises on the
      other types.
    - Python [str] is modelled by [string], whose characters stand for the
      code points below 256.
    - Exceptions are explicit: code that can raise returns a [result]; code
      that also reads or changes the host (files, subprocesses, terminal) or
      the conversation lives in the state-and-exception monad [M], whose
      state keeps the changes made before an exception.
    - The operating system is part of the state [world]: the files by path,
      and the behaviour of [glob], [re], [os.path.getmtime] and
      [subprocess.Popen] as functions the host provides.  A subprocess is
      described by the times at which its output and its exit are observed.
    - The transport is a list of the outcomes of the coming provider calls;
      user input is a list of lines and interrupts.
    - Terminal rendering (colours, separators, previews) is reduced to the
      events of [event]; the system information string is a parameter. *)

From Stdlib Require Import ZArith String Ascii List Lia Bool DecimalString.
From stdpp Require Import gmap strings.

Open Scope string_scope.
Open Scope list_scope.
Open Scope nat_scope.

#[global] Arguments String.append !s1 s2 : simpl nomatch.

(** ** Python [str] methods *)

Module PyStr.

(** [s[n:]] *)
Fixpoint drop (n : nat) (s : string) : string :=
  match n, s with
  | 0, _ => s
  | S _, "" => ""
  | S k, String _ t => drop k t
  end.

(** [s.startswith(p)] *)
Fixpoint startswith (p s : string) : bool :=
  match p, s with
  | "", _ => true
  | String _ _, "" => false
  | String a p', String b s' => Ascii.eqb a b && startswith p' s'
  end.

(** [s.endswith(p)] *)
Definition endswith (p s : string) : bool :=
  (String.length p <=? String.length s)
  && String.eqb (drop (String.length s - String.length p) s) p.

(** [s.partition(sep)] restricted to its first and last component:
    [Some (before, after)] at the leftmost occurrence of [sep],
    [None] when [sep] does not occur. *)
Fixpoint partition (sep s : string) : option (string * string) :=
  if startswith sep s then Some ("", drop (String.length sep) s)
  else match s with
       | "" => None
       | String c t =>
           match partition sep t with
           | Some (a, b) => Some (String c a, b)
           | None => None
           end
       end.

(** [sub in s] *)
Definition contains (sub s : string) : bool :=
  match partition sub s with Some _ => true | None => false end.

(** [s.count(sub)] for a non-empty [sub]: the scan restarts after each
    match, so occurrences are counted left to right without overlap.
    [fuel] bounds the number of matches; [String.length s] is enough. *)
Fixpoint count_scan (fuel : nat) (sub s : string) : nat :=
  match fuel with
  | 0 => 0
  | S fuel' =>
      match partition sub s with
      | None => 0
      | Some (_, rest) => S (count_scan fuel' sub rest)
      end
  end.

(** [s.count(sub)]; the empty string is counted between all characters
    and at both ends. *)
Definition count (sub s : string) : nat :=
  match sub with
  | "" => S (String.length s)
  | _ => count_scan (String.length s) sub s
  end.

(** [max] is the optional third argument of [str.replace]:
    [None] replaces without limit. *)
Definition spent (max : option nat) : bool :=
  match max with Some 0 => true | _ => false end.

Definition one_less (max : option nat) : option nat :=
  match max with Some n => Some (pred n) | None => None end.

(** [s.replace(old, new, max)] for a non-empty [old]. *)
Fixpoint replace_scan (fuel : nat) (old new s : string) (max : option nat)
  : string :=
  match fuel with
  | 0 => s
  | S fuel' =>
      if spent max then s
      else match partition old s with
           | None => s
           | Some (before, rest) =>
               before +:+ new +:+ replace_scan fuel' old new rest (one_less max)
           end
  end.

(** [s.replace("", new, max)]: [new] is inserted before each character and
    at the end, as long as [max] allows (CPython 3.9 and later, where
    ["".replace("", x, 1) == x]). *)
Fixpoint interleave (new s : string) (max : option nat) : string :=
  if spent max then s
  else match s with
       | "" => new
       | String c t => new +:+ String c (interleave new t (one_less max))
       end.

Definition replace (old new s : string) (max : option nat) : string :=
  match old with
  | "" => interleave new s max
  | _ => replace_scan (String.length s) old new s max
  end.

(** [sep.join(l)] *)
Fixpoint join (sep : string) (l : list string) : string :=
  match l with
  | [] => ""
  | [x] => x
  | x :: rest => x +:+ sep +:+ join sep rest
  end.

(** [str.isspace] on one character (code points below 256). *)
Definition is_space (c : ascii) : bool :=
  let n := nat_of_ascii c in
  ((9 <=? n) && (n <=? 13)) || ((28 <=? n) && (n <=? 32))
  || (n =? 133) || (n =? 160).

(** [s.rstrip(chars)], with the set of characters as a predicate. *)
Fixpoint rstrip_by (p : ascii -> bool) (s : string) : string :=
  match s with
  | "" => ""
  | String c t =>
      let r := rstrip_by p t in
      if p c && String.eqb r "" then "" else String c r
  end.

Fixpoint lstrip_by (p : ascii -> bool) (s : string) : string :=
  match s with
  | "" => ""
  | String c t => if p c then lstrip_by p t else s
  end.

Definition rstrip (s : string) : string := rstrip_by is_space s.
Definition strip (s : string) : string := lstrip_by is_space (rstrip_by is_space s).

(** [s.rstrip("?")] *)
Definition rstrip_char (c : ascii) (s : string) : string :=
  rstrip_by (Ascii.eqb c) s.

(** [s.upper()] and [s.islower()]-style checks on the ASCII letters, the
    only cased characters the schema tags contain. *)
Definition upper_char (c : ascii) : ascii :=
  let n := nat_of_ascii c in
  if (97 <=? n) && (n <=? 122) then ascii_of_nat (n - 32) else c.

Fixpoint upper (s : string) : string :=
  match s with
  | "" => ""
  | String c t => String (upper_char c) (upper t)
  end.

Definition lower_char (c : ascii) : ascii :=
  let n := nat_of_ascii c in
  if (65 <=? n) && (n <=? 90) then ascii_of_nat (n + 32) else c.

Fixpoint lower (s : string) : string :=
  match s with
  | "" => ""
  | String c t => String (lower_char c) (lower t)
  end.

(** [str(n)] for an [int]. *)
Definition of_Z (n : Z) : string := NilZero.string_of_int (Z.to_int n).
Definition of_nat (n : nat) : string := of_Z (Z.of_nat n).

(** [s.rjust(w)]: the padding of the format specification [{x:4}]. *)
Fixpoint spaces (n : nat) : string :=
  match n with 0 => "" | S k => String " " (spaces k) end.

Definition rjust (w : nat) (s : string) : string :=
  spaces (w - String.length s) +:+ s.

(** The lines of a text as file iteration and [readlines] yield them:
    split after every newline, the newline kept. *)
Fixpoint lines_from (cur : string -> string) (s : string) : list string :=
  match s with
  | "" => match cur "" with "" => [] | l => [l] end
  | String c t =>
      if Ascii.eqb c "010" then cur (String c "") :: lines_from (fun x => x) t
      else lines_from (fun x => cur (String c x)) t
  end.

Definition splitlines (s : string) : list string := lines_from (fun x => x) s.

(** [repr(s)] for a [str]: the quote is a double quote exactly when the
    text holds a single quote and no double quote; backslash, the chosen
    quote, tab, newline and carriage return are escaped with a backslash,
    the other control characters as [\xNN]. *)
Definition hex_digit (n : nat) : ascii :=
  if n <? 10 then ascii_of_nat (48 + n) else ascii_of_nat (87 + n).

Definition has_char (c : ascii) (s : string) : bool :=
  contains (String c "") s.

Definition printable (c : ascii) : bool :=
  let n := nat_of_ascii c in
  ((32 <=? n) && (n <? 127)) || ((161 <=? n) && negb (n =? 173)).

Fixpoint repr_body (q : ascii) (s : string) : string :=
  match s with
  | "" => ""
  | String c t =>
      let rest := repr_body q t in
      if Ascii.eqb c "\" then String "\" (String "\" rest)
      else if Ascii.eqb c q then String "\" (String c rest)
      else if Ascii.eqb c "009" then String "\" (String "t" rest)
      else if Ascii.eqb c "010" then String "\" (String "n" rest)
      else if Ascii.eqb c "013" then String "\" (String "r" rest)
      else if printable c then String c rest
      else let n := nat_of_ascii c in
           String "\" (String "x" (String (hex_digit (n / 16))
                                      (String (hex_digit (n mod 16)) rest)))
  end.

Definition repr (s : string) : string :=
  let q : ascii := if has_char "'" s && negb (has_char "034" s)
                   then "034"%char else "'"%char in
  String q (repr_body q s +:+ String q "").

End PyStr.

(** ** JSON values, exceptions and results *)

(** What [json.loads] produces.  A float is kept as mantissa and binary
    exponent; the code only ever tests it for truth. *)
#[warnings="-register-all"]
Inductive json :=
| JNull
| JBool (b : bool)
| JInt (n : Z)
| JFloat (m e : Z)
| JStr (s : string)
| JArr (items : list json)
| JObj (fields : list (string * json)).

(** The exception classes the program meets.  [KeyboardInterrupt] is the
    only one that does not derive from [Exception]. *)
Inductive exn_class :=
| KeyError | TypeError | AttributeError | IndexError | OSError
| UnicodeDecodeError | ReError | TimeoutExpired | URLError | JSONDecodeError
| EOFError | KeyboardInterrupt.

Record exn := Exn { exn_cls : exn_class; exn_msg : string }.

(** [isinstance(e, Exception)] *)
Definition is_Exception (e : exn) : bool :=
  match exn_cls e with KeyboardInterrupt => false | _ => true end.

(** [str(e)]; a [KeyError] is built with the [repr] of its key as text. *)
Definition exn_str (e : exn) : string := exn_msg e.

(** The outcome of evaluating Python code: a value, a raised exception, or
    no outcome at all ([Hang]: the call never returns). *)
Inductive result (A : Type) :=
| Ret (a : A)
| Raise (e : exn)
| Hang.
Arguments Ret {A} a.
Arguments Raise {A} e.
Arguments Hang {A}.

Definition rbind {A B} (r : result A) (k : A -> result B) : result B :=
  match r with
  | Ret a => k a
  | Raise e => Raise e
  | Hang => Hang
  end.

Notation "'let?' x ':=' e 'in' k" := (rbind e (fun x => k))
  (at level 10, x name, e at level 100, k at level 200).

Definition type_name (v : json) : string :=
  match v with
  | JNull => "NoneType" | JBool _ => "bool" | JInt _ => "int"
  | JFloat _ _ => "float" | JStr _ => "str" | JArr _ => "list"
  | JObj _ => "dict"
  end.

Definition key_error (k : string) : exn := Exn KeyError (PyStr.repr k).
Definition type_error (msg : string) : exn := Exn TypeError msg.
Definition attribute_error (v : json) (attr : string) : exn :=
  Exn AttributeError
      ("'" +:+ type_name v +:+ "' object has no attribute '" +:+ attr +:+ "'").

(** ** Dynamically typed operations on JSON values *)

(** [bool(v)] *)
Definition truthy (v : json) : bool :=
  match v with
  | JNull => false
  | JBool b => b
  | JInt n => negb (n =? 0)%Z
  | JFloat m _ => negb (m =? 0)%Z
  | JStr s => negb (String.eqb s "")
  | JArr l => match l with [] => false | _ => true end
  | JObj kv => match kv with [] => false | _ => true end
  end.

(** [v == s] for a string literal [s] *)
Definition eq_str (v : json) (s : string) : bool :=
  match v with JStr t => String.eqb t s | _ => false end.

(** Lookup in a [dict], an association list in insertion order. *)
Fixpoint lookup_key {A} (k : string) (kv : list (string * A)) : option A :=
  match kv with
  | [] => None
  | (k', v) :: rest => if String.eqb k k' then Some v else lookup_key k rest
  end.

(** [v[k]] for a string key [k] *)
Definition getitem (v : json) (k : string) : result json :=
  match v with
  | JObj kv =>
      match lookup_key k kv with
      | Some x => Ret x
      | None => Raise (key_error k)
      end
  | JArr _ => Raise (type_error "list indices must be integers or slices, not str")
  | JStr _ => Raise (type_error "string indices must be integers, not 'str'")
  | _ => Raise (type_error ("'" +:+ type_name v +:+ "' object is not subscriptable"))
  end.

(** [v[0]] *)
Definition getitem0 (v : json) : result json :=
  match v with
  | JArr (x :: _) => Ret x
  | JArr [] => Raise (Exn IndexError "list index out of range")
  | JStr (String c _) => Ret (JStr (String c ""))
  | JStr "" => Raise (Exn IndexError "string index out of range")
  | JObj _ => Raise (Exn KeyError "0")
  | _ => Raise (type_error ("'" +:+ type_name v +:+ "' object is not subscriptable"))
  end.

(** [v.get(k, default)] *)
Definition get_default (v : json) (k : string) (default : json) : result json :=
  match v with
  | JObj kv =>
      match lookup_key k kv with
      | Some x => Ret x
      | None => Ret default
      end
  | _ => Raise (attribute_error v "get")
  end.

(** [k in v] for a string literal [k] *)
Definition has_key (k : string) (v : json) : result bool :=
  match v with
  | JObj kv => Ret (match lookup_key k kv with Some _ => true | None => false end)
  | JArr l => Ret (existsb (fun x => eq_str x k) l)
  | JStr s => Ret (PyStr.contains k s)
  | _ => Raise (type_error ("argument of type '" +:+ type_name v +:+ "' is not iterable"))
  end.

(** The items a [for] loop over [v] visits. *)
Definition chars (s : string) : list json :=
  map (fun c => JStr (String c "")) (list_ascii_of_string s).

Definition iterate (v : json) : result (list json) :=
  match v with
  | JArr l => Ret l
  | JObj kv => Ret (map (fun p => JStr (fst p)) kv)
  | JStr s => Ret (chars s)
  | _ => Raise (type_error ("'" +:+ type_name v +:+ "' object is not iterable"))
  end.

(** [list(v.values())] *)
Definition values (v : json) : result (list json) :=
  match v with
  | JObj kv => Ret (map snd kv)
  | _ => Raise (attribute_error v "values")
  end.

(** [a + b] where the code concatenates strings: it succeeds on two [str]
    operands (the other operand is a string literal, or a [str] computed
    just before, at every use). *)
Definition concat (a b : json) : result string :=
  match a, b with
  | JStr x, JStr y => Ret (x +:+ y)
  | _, _ => Raise (type_error ("cannot concatenate '" +:+ type_name a +:+ "' and '"
                               +:+ type_name b +:+ "'"))
  end.

(** An operand used as an integer ([bool] is a subclass of [int]). *)
Definition as_int (v : json) : option Z :=
  match v with
  | JInt n => Some n
  | JBool b => Some (if b then 1 else 0)%Z
  | _ => None
  end.

(** [l[a:b]] for integers [a] and [b] *)
Definition clamp (n : nat) (i : Z) : nat :=
  if (i <? 0)%Z then Z.to_nat (Z.max (i + Z.of_nat n) 0)
  else Nat.min (Z.to_nat i) n.

Definition slice {A} (l : list A) (a b : Z) : list A :=
  let n := length l in
  let lo := clamp n a in
  let hi := clamp n b in
  firstn (hi - lo) (skipn lo l).

(** ** The host: files, subprocesses and the operating system *)

(** A path is a directory or a file.  [File text bad]: reading yields
    [text]; with [bad = Some msg] decoding fails after [text] with that
    message. *)
Inductive node :=
| Dir
| File (text : string) (bad : option string).

(** A subprocess as the pipe and [wait] observe it, times in seconds from
    its start: the output lines with the time each becomes readable, the
    time the pipe reaches end of file and the time the process exits
    ([None]: never), and the files once it has run. *)
Record process := Process {
  p_lines : list (nat * string);
  p_eof : option nat;
  p_exit : option nat;
  p_files : gmap string node
}.

(** What the program shows on the terminal, and the payloads it sends to
    the provider. *)
Inductive event :=
| EvBashLine (line : string)
| EvText (text : string)
| EvToolCall (name : string) (first_arg : json)
| EvToolResult (result_text : string)
| EvCleared
| EvSystemInfo
| EvError (description : string)
| EvRequest (payload : json).

Record world := World {
  files : gmap string node;
  clock : nat;
  trace : list event;
  (** [open(path, "w")] fails with this message *)
  os_write_denied : string -> option string;
  (** [glob.glob(pattern, recursive=True)] *)
  os_glob : gmap string node -> string -> list string;
  (** [os.path.getmtime] *)
  os_mtime : gmap string node -> string -> Z;
  (** [re.compile(pattern)] fails with this message *)
  re_invalid : string -> option string;
  (** [re.compile(pattern).search(line)] finds a match *)
  re_search : string -> string -> bool;
  (** [subprocess.Popen(cmd, shell=True, ...)]: the message of the
      exception it raises, or the process it starts *)
  os_popen : gmap string node -> json -> string + process
}.

Definition with_files (w : world) (fs : gmap string node) : world :=
  World fs (clock w) (trace w) (os_write_denied w) (os_glob w)
        (os_mtime w) (re_invalid w) (re_search w) (os_popen w).

Definition with_clock (w : world) (t : nat) : world :=
  World (files w) t (trace w) (os_write_denied w) (os_glob w)
        (os_mtime w) (re_invalid w) (re_search w) (os_popen w).

Definition with_trace (w : world) (tr : list event) : world :=
  World (files w) (clock w) tr (os_write_denied w) (os_glob w)
        (os_mtime w) (re_invalid w) (re_search w) (os_popen w).

(** Code that reads and changes a state and may raise.  The state keeps
    the changes made before an exception.  The tools run on the host
    ([M world]); the loop of [main] adds the conversation to the state. *)
Definition M (S A : Type) : Type := S -> result A * S.

Definition ret {S A} (a : A) : M S A := fun s => (Ret a, s).
Definition raise {S A} (e : exn) : M S A := fun s => (Raise e, s).
Definition hang {S A} : M S A := fun s => (Hang, s).
Definition lift {S A} (r : result A) : M S A := fun s => (r, s).

Definition bind {S A B} (m : M S A) (k : A -> M S B) : M S B :=
  fun s =>
    match m s with
    | (Ret a, s') => k a s'
    | (Raise e, s') => (Raise e, s')
    | (Hang, s') => (Hang, s')
    end.

Notation "'let!' x ':=' e 'in' k" := (bind e (fun x => k))
  (at level 10, x name, e at level 100, k at level 200).

(** [print(...)] *)
Definition emit (ev : event) : M world unit :=
  fun w => (Ret tt, with_trace w (trace w ++ [ev])).

(** [try: body except Exception as err: handler(err)] *)
Definition try_except {S A} (body : M S A) (handler : exn -> M S A) : M S A :=
  fun s =>
    match body s with
    | (Raise e, s') => if is_Exception e then handler e s' else (Raise e, s')
    | other => other
    end.

Definition os_error (msg : string) : exn := Exn OSError msg.

(** [open(path)] for reading: the node behind a path. *)
Definition open_read (path : json) : M world (string * option string) :=
  fun w =>
    match path with
    | JStr p =>
        match files w !! p with
        | Some (File text bad) => (Ret (text, bad), w)
        | Some Dir => (Raise (os_error ("[Errno 21] Is a directory: " +:+ PyStr.repr p)), w)
        | None => (Raise (os_error ("[Errno 2] No such file or directory: "
                                    +:+ PyStr.repr p)), w)
        end
    | JInt _ | JBool _ => (Raise (os_error "[Errno 9] Bad file descriptor"), w)
    | _ => (Raise (type_error ("expected str, bytes or os.PathLike object, not "
                               +:+ type_name path)), w)
    end.

(** [f.read()] *)
Definition read_all (f : string * option string) : result string :=
  match f with
  | (text, None) => Ret text
  | (_, Some msg) => Raise (Exn UnicodeDecodeError msg)
  end.

(** [open(path, "w")]: the file is created or truncated. *)
Definition open_write (path : json) : M world string :=
  fun w =>
    match path with
    | JStr p =>
        match os_write_denied w p with
        | Some msg => (Raise (os_error msg), w)
        | None =>
            match files w !! p with
            | Some Dir => (Raise (os_error ("[Errno 21] Is a directory: "
                                            +:+ PyStr.repr p)), w)
            | _ => (Ret p, with_files w (<[p := File "" None]> (files w)))
            end
        end
    | JInt _ | JBool _ => (Raise (os_error "[Errno 9] Bad file descriptor"), w)
    | _ => (Raise (type_error ("expected str, bytes or os.PathLike object, not "
                               +:+ type_name path)), w)
    end.

(** [f.write(content)] on a file just opened for writing *)
Definition write_text (p : string) (content : json) : M world unit :=
  fun w =>
    match content with
    | JStr s => (Ret tt, with_files w (<[p := File s None]> (files w)))
    | _ => (Raise (type_error ("write() argument must be str, not "
                               +:+ type_name content)), w)
    end.

(** ** Tool implementations *)

Definition newline : string := String "010" "".

(** [f"{offset + idx + 1:4}| {line}"] for each selected line *)
Fixpoint number_lines (offset : Z) (idx : nat) (selected : list string)
  : list string :=
  match selected with
  | [] => []
  | line :: rest =>
      (PyStr.rjust 4 (PyStr.of_Z (offset + Z.of_nat idx + 1)) +:+ "| " +:+ line)
        :: number_lines offset (S idx) rest
  end.

Definition read (args : json) : M world string :=
  let! path := lift (getitem args "path") in
  let! f := open_read path in
  let! text := lift (read_all f) in
  let lines := PyStr.splitlines text in
  let! offset := lift (get_default args "offset" (JInt 0)) in
  let! limit := lift (get_default args "limit" (JInt (Z.of_nat (length lines)))) in
  match as_int offset, as_int limit with
  | Some o, Some l =>
      let selected := slice lines o (o + l) in
      ret (PyStr.join "" (number_lines o 0 selected))
  | _, _ => raise (type_error "slice indices must be integers")
  end.

Definition write (args : json) : M world string :=
  let! path := lift (getitem args "path") in
  let! p := open_write path in
  let! content := lift (getitem args "content") in
  let! done := write_text p content in
  ret "ok".

Definition edit (args : json) : M world string :=
  let! path := lift (getitem args "path") in
  let! f := open_read path in
  let! text := lift (read_all f) in
  let! old := lift (getitem args "old") in
  let! new := lift (getitem args "new") in
  match old with
  | JStr old =>
      if negb (PyStr.contains old text) then ret "error: old_string not found"
      else
        let count := PyStr.count old text in
        let! all := lift (get_default args "all" JNull) in
        if negb (truthy all) && (1 <? count) then
          ret ("error: old_string appears " +:+ PyStr.of_nat count
               +:+ " times, must be unique (use all=true)")
        else
          match new with
          | JStr new =>
              let replacement :=
                if truthy all then PyStr.replace old new text None
                else PyStr.replace old new text (Some 1) in
              let! p := open_write path in
              let! done := write_text p (JStr replacement) in
              ret "ok"
          | _ => raise (type_error ("replace() argument 2 must be str, not "
                                    +:+ type_name new))
          end
  | _ => raise (type_error ("'in <string>' requires string as left operand, not "
                            +:+ type_name old))
  end.

(** [sorted(files, key=..., reverse=True)]: descending, and stable. *)
Fixpoint insert_desc (key : string -> Z) (x : string) (l : list string)
  : list string :=
  match l with
  | [] => [x]
  | y :: rest =>
      if (key y <=? key x)%Z then x :: l else y :: insert_desc key x rest
  end.

Definition sorted_desc (key : string -> Z) (l : list string) : list string :=
  fold_right (insert_desc key) [] l.

Definition isfile (fs : gmap string node) (f : string) : bool :=
  match fs !! f with Some (File _ _) => true | _ => false end.

(** [s or "none"] *)
Definition or_else (s default : string) : string :=
  if String.eqb s "" then default else s.

Definition glob (args : json) : M world string :=
  let! base := lift (get_default args "path" (JStr ".")) in
  let! dir := lift (concat base (JStr "/")) in
  let! pat := lift (getitem args "pat") in
  let! joined := lift (concat (JStr dir) pat) in
  let pattern := PyStr.replace "//" "/" joined None in
  fun w =>
    let found := os_glob w (files w) pattern in
    let key f := if isfile (files w) f then os_mtime w (files w) f else 0%Z in
    (Ret (or_else (PyStr.join newline (sorted_desc key found)) "none"), w).

(** [re.compile(pat)]; the compiled pattern is identified with its source. *)
Definition re_compile (pat : json) : M world string :=
  fun w =>
    match pat with
    | JStr p =>
        match re_invalid w p with
        | Some msg => (Raise (Exn ReError msg), w)
        | None => (Ret p, w)
        end
    | _ => (Raise (type_error "first argument must be string or compiled pattern"), w)
    end.

(** The loop over the lines of one file, [line_num] counting from 1. *)
Fixpoint grep_scan (search : string -> bool) (filepath : string)
    (line_num : nat) (lines : list string) (hits : list string) : list string :=
  match lines with
  | [] => hits
  | line :: rest =>
      let hits' :=
        if search line
        then hits ++ [filepath +:+ ":" +:+ PyStr.of_nat line_num +:+ ":"
                      +:+ PyStr.rstrip line]
        else hits in
      grep_scan search filepath (S line_num) rest hits'
  end.

(** One round of the loop over the files: [try: ... except Exception: pass].
    A file that cannot be opened adds nothing; a file whose decoding fails
    part-way keeps the hits appended before the failure. *)
Definition grep_file (pattern : string) (hits : list string) (filepath : string)
  : M world (list string) :=
  let! opened := try_except (let! f := open_read (JStr filepath) in ret (Some f))
                            (fun _ => ret None) in
  match opened with
  | None => ret hits
  | Some (text, _) =>
      fun w => (Ret (grep_scan (re_search w pattern) filepath 1
                               (PyStr.splitlines text) hits), w)
  end.

Fixpoint grep_files (pattern : string) (filepaths : list string)
    (hits : list string) : M world (list string) :=
  match filepaths with
  | [] => ret hits
  | filepath :: rest =>
      let! hits' := grep_file pattern hits filepath in
      grep_files pattern rest hits'
  end.

Definition grep (args : json) : M world string :=
  let! pat := lift (getitem args "pat") in
  let! pattern := re_compile pat in
  let! base := lift (get_default args "path" (JStr ".")) in
  let! root := lift (concat base (JStr "/**")) in
  let! filepaths := (fun w => (Ret (os_glob w (files w) root), w)) in
  let! hits := grep_files pattern filepaths [] in
  ret (or_else (PyStr.join newline (firstn 50 hits)) "none").

(** [proc.poll() is not None] at time [t] *)
Definition exited (p : process) (t : nat) : bool :=
  match p_exit p with Some tx => tx <=? t | None => false end.

(** The [while True] loop of [bash]: [readline] blocks until the next line
    is readable or the pipe is at end of file.  At end of file [readline]
    returns at once, so the loop spins until [poll] sees the exit.  The
    result is the time the loop is left ([None]: never), the lines
    accumulated and the lines printed. *)
Fixpoint read_loop (p : process) (pending : list (nat * string)) (t : nat)
    (output_lines : list string) (printed : list event)
  : option nat * list string * list event :=
  match pending with
  | (ready, line) :: rest =>
      let t' := Nat.max t ready in
      if String.eqb line "" then
        if exited p t' then (Some t', output_lines, printed)
        else read_loop p rest t' output_lines printed
      else read_loop p rest t' (output_lines ++ [line])
                     (printed ++ [EvBashLine (PyStr.rstrip line)])
  | [] =>
      match p_eof p, p_exit p with
      | Some eof, Some tx => (Some (Nat.max (Nat.max t eof) tx), output_lines, printed)
      | _, _ => (None, output_lines, printed)
      end
  end.

(** [proc.wait(timeout)] called at time [t]: the time it returns and
    whether it raises [TimeoutExpired]. *)
Definition wait (p : process) (t timeout : nat) : nat * bool :=
  match p_exit p with
  | Some tx =>
      if tx <=? t then (t, false)
      else if tx <=? t + timeout then (tx, false)
      else (t + timeout, true)
  | None => (t + timeout, true)
  end.

Definition timeout_marker : string := newline +:+ "(timed out after 30s)".

(** What one run of the shell tool did: the seconds it took, whether the
    subprocess was killed, and the text returned. *)
Record bash_run := BashRun {
  elapsed : nat;
  killed : bool;
  returned : string
}.

Definition run_process (p : process) : option bash_run * list event :=
  match read_loop p (p_lines p) 0 [] [] with
  | (None, _, printed) => (None, printed)
  | (Some t, output_lines, printed) =>
      let (t', expired) := wait p t 30 in
      let output_lines' :=
        if expired then output_lines ++ [timeout_marker] else output_lines in
      (Some (BashRun t' expired
                     (or_else (PyStr.strip (PyStr.join "" output_lines')) "(empty)")),
       printed)
  end.

Definition popen (cmd : json) : M world process :=
  fun w =>
    match os_popen w (files w) cmd with
    | inl msg => (Raise (os_error msg), w)
    | inr p => (Ret p, w)
    end.

Definition bash (args : json) : M world string :=
  let! cmd := lift (getitem args "cmd") in
  let! proc := popen cmd in
  fun w =>
    match run_process proc with
    | (None, printed) => (Hang, with_trace w (trace w ++ printed))
    | (Some run, printed) =>
        (Ret (returned run),
         with_trace (with_clock (with_files w (p_files proc))
                                   (clock w + elapsed run))
                       (trace w ++ printed))
    end.

(** ** Tool definitions: (description, schema, function) *)

Definition TOOLS
  : list (string * (string * list (string * string) * (json -> M world string))) :=
  [ ("read",
     ("Read file with line numbers (file path, not directory)",
      [("path", "string"); ("offset", "number?"); ("limit", "number?")],
      read));
    ("write",
     ("Write content to file",
      [("path", "string"); ("content", "string")],
      write));
    ("edit",
     ("Replace old with new in file (old must be unique unless all=true)",
      [("path", "string"); ("old", "string"); ("new", "string");
       ("all", "boolean?")],
      edit));
    ("glob",
     ("Find files by pattern, sorted by mtime",
      [("pat", "string"); ("path", "string?")],
      glob));
    ("grep",
     ("Search files for regex pattern",
      [("pat", "string"); ("path", "string?")],
      grep));
    ("bash",
     ("Run shell command",
      [("cmd", "string")],
      bash)) ].

(** [TOOLS[name][2](args)] *)
Definition call_tool (name : string) (args : json) : M world string :=
  match lookup_key name TOOLS with
  | Some (_, _, fn) => fn args
  | None => raise (key_error name)
  end.

Definition run_tool (name : string) (args : json) : M world string :=
  try_except (call_tool name args)
             (fun err => ret ("error: " +:+ exn_str err)).

(** ** Provider selection and tool schemas *)

Inductive provider := Gemini | OpenRouter | Anthropic.

(** The provider chosen from the environment: the first key that is set
    (and not empty) wins. *)
Definition select_provider (GEMINI_KEY OPENROUTER_KEY : option string) : provider :=
  match GEMINI_KEY with
  | Some (String _ _) => Gemini
  | _ => match OPENROUTER_KEY with
         | Some (String _ _) => OpenRouter
         | _ => Anthropic
         end
  end.

Definition is_gemini (PROVIDER : provider) : bool :=
  match PROVIDER with Gemini => true | _ => false end.

(** The type tag of one parameter: [prop_def["type"]] at the end of the
    inner loop of [make_schema]. *)
Definition prop_type (PROVIDER : provider) (param_type : string) : string :=
  let base_type := PyStr.rstrip_char "?" param_type in
  let tag := if String.eqb base_type "number" then "integer" else base_type in
  if is_gemini PROVIDER && String.eqb base_type "string" then "STRING"
  else if is_gemini PROVIDER && String.eqb base_type "number" then "NUMBER"
  else if is_gemini PROVIDER && String.eqb base_type "boolean" then "BOOLEAN"
  else tag.

Definition tool_schema (PROVIDER : provider)
    (tool : string * (string * list (string * string) * (json -> M world string)))
  : json :=
  let '(name, (description, params, _)) := tool in
  let properties :=
    map (fun p => (fst p, JObj [("type", JStr (prop_type PROVIDER (snd p)))])) params in
  let required :=
    map (fun p => JStr (fst p))
        (List.filter (fun p => negb (PyStr.endswith "?" (snd p))) params) in
  if is_gemini PROVIDER then
    JObj [("name", JStr name);
          ("description", JStr description);
          ("parameters", JObj [("type", JStr "OBJECT");
                               ("properties", JObj properties);
                               ("required", JArr required)])]
  else
    JObj [("name", JStr name);
          ("description", JStr description);
          ("input_schema", JObj [("type", JStr "object");
                                 ("properties", JObj properties);
                                 ("required", JArr required)])].

Definition make_schema (PROVIDER : provider) : list json :=
  map (tool_schema PROVIDER) TOOLS.

(** The type tag a schema gives to parameter [param] of tool [tool]. *)
Definition schema_entry (schema : list json) (tool : string) : option json :=
  find (fun entry => match getitem entry "name" with
                     | Ret n => eq_str n tool
                     | _ => false
                     end) schema.

Definition schema_tag (PROVIDER : provider) (tool param : string) : option string :=
  match schema_entry (make_schema PROVIDER) tool with
  | None => None
  | Some entry =>
      let body := if is_gemini PROVIDER then "parameters" else "input_schema" in
      match (let? params := getitem entry body in
             let? properties := getitem params "properties" in
             let? prop_def := getitem properties param in
             getitem prop_def "type") with
      | Ret (JStr tag) => Some tag
      | _ => None
      end
  end.

(** ** Gemini: request and response conversion *)

(** The inner loop of [convert_messages_to_gemini] over the items of one
    message. *)
Fixpoint gemini_parts (items : list json) (parts : list json) : result (list json) :=
  match items with
  | [] => Ret parts
  | item :: rest =>
      let? type := getitem item "type" in
      if eq_str type "text" then
        let? text := getitem item "text" in
        gemini_parts rest (parts ++ [JObj [("text", text)]])
      else if eq_str type "tool_use" then
        let? name := getitem item "name" in
        let? input := getitem item "input" in
        gemini_parts rest
          (parts ++ [JObj [("functionCall", JObj [("name", name); ("args", input)])]])
      else if eq_str type "tool_result" then
        let? content := getitem item "content" in
        gemini_parts rest
          (parts ++ [JObj [("functionResponse",
                            JObj [("name", JStr "tool_result");
                                  ("response", JObj [("result", content)])])]])
      else gemini_parts rest parts
  end.

Fixpoint convert_messages_to_gemini (messages : list json) (system_prompt : string)
  : result (list json) :=
  match messages with
  | [] => Ret []
  | msg :: rest =>
      let? r := getitem msg "role" in
      let role := if eq_str r "user" then "user" else "model" in
      let? content := getitem msg "content" in
      let? entry :=
        match content with
        | JStr _ => Ret [JObj [("role", JStr role);
                               ("parts", JArr [JObj [("text", content)]])]]
        | JArr items =>
            let? parts := gemini_parts items [] in
            match parts with
            | [] => Ret []
            | _ => Ret [JObj [("role", JStr role); ("parts", JArr parts)]]
            end
        | _ => Ret []
        end in
      let? contents := convert_messages_to_gemini rest system_prompt in
      Ret (entry ++ contents)
  end.

Definition text_block (text : json) : json :=
  JObj [("type", JStr "text"); ("text", text)].

(** The loop of [convert_gemini_response] over the parts. *)
Fixpoint gemini_blocks (parts : list json) (content_blocks : list json)
  : result (list json) :=
  match parts with
  | [] => Ret content_blocks
  | part :: rest =>
      let? is_text := has_key "text" part in
      if is_text then
        let? text := getitem part "text" in
        gemini_blocks rest (content_blocks ++ [text_block text])
      else
        let? is_call := has_key "functionCall" part in
        if is_call then
          let? fc := getitem part "functionCall" in
          let? id_name := get_default fc "name" (JStr "unknown") in
          let? id := concat id_name (JStr "_call") in
          let? name := getitem fc "name" in
          let? input := get_default fc "args" (JObj []) in
          gemini_blocks rest
            (content_blocks ++ [JObj [("type", JStr "tool_use");
                                      ("id", JStr id);
                                      ("name", name);
                                      ("input", input)]])
        else gemini_blocks rest content_blocks
  end.

Definition convert_gemini_response (gemini_response : json) : result json :=
  let? present := has_key "candidates" gemini_response in
  let? empty :=
    if negb present then Ret true
    else let? candidates := getitem gemini_response "candidates" in
         Ret (negb (truthy candidates)) in
  if empty then
    Ret (JObj [("content", JArr [text_block (JStr "No response from Gemini.")])])
  else
    let? candidates := getitem gemini_response "candidates" in
    let? candidate := getitem0 candidates in
    let? has_content := has_key "content" candidate in
    if negb has_content then
      Ret (JObj [("content", JArr [text_block (JStr "Empty response from Gemini.")])])
    else
      let? content := getitem candidate "content" in
      let? parts := get_default content "parts" (JArr []) in
      let? items := iterate parts in
      let? content_blocks := gemini_blocks items [] in
      Ret (JObj [("content", JArr content_blocks)]).

(** ** The provider call *)

Record config := Config {
  PROVIDER : provider;
  MODEL : string;
  system_info : string
}.

(** The state of [main]: the host, the conversation [messages], and the
    transport.  [net] lists the outcomes of the coming calls of
    [json.loads(urlopen(request).read())], in order; after the last one the
    provider does not answer any more. *)
Record session := Session {
  host : world;
  messages : list json;
  net : list (result json)
}.

Definition in_host {A} (m : M world A) : M session A :=
  fun s =>
    match m (host s) with
    | (r, w') => (r, Session w' (messages s) (net s))
    end.

Definition say (ev : event) : M session unit := in_host (emit ev).

Definition get_messages : M session (list json) :=
  fun s => (Ret (messages s), s).

Definition set_messages (msgs : list json) : M session unit :=
  fun s => (Ret tt, Session (host s) msgs (net s)).

(** [messages.append(turn)] *)
Definition append_turn (turn : json) : M session unit :=
  fun s => (Ret tt, Session (host s) (messages s ++ [turn]) (net s)).

(** [json.loads(urllib.request.urlopen(request).read())] *)
Definition urlopen (payload : json) : M session json :=
  let! sent := say (EvRequest payload) in
  fun s =>
    match net s with
    | [] => (Hang, s)
    | outcome :: rest => (outcome, Session (host s) (messages s) rest)
    end.

Definition call_api (cfg : config) (msgs : list json) (system_prompt : string)
  : M session json :=
  if is_gemini (PROVIDER cfg) then
    let! contents := lift (convert_messages_to_gemini msgs system_prompt) in
    let payload :=
      JObj [("contents", JArr contents);
            ("tools", JArr [JObj [("functionDeclarations",
                                   JArr (make_schema (PROVIDER cfg)))]]);
            ("systemInstruction",
             JObj [("parts", JArr [JObj [("text", JStr system_prompt)]])])] in
    let! gemini_response := urlopen payload in
    lift (convert_gemini_response gemini_response)
  else
    urlopen (JObj [("model", JStr (MODEL cfg));
                   ("max_tokens", JInt 8192);
                   ("system", JStr system_prompt);
                   ("messages", JArr msgs);
                   ("tools", JArr (make_schema (PROVIDER cfg)))]).

(** ** The agent loop and the REPL *)

Definition tool_result_block (id : json) (result_text : string) : json :=
  JObj [("type", JStr "tool_result");
        ("tool_use_id", id);
        ("content", JStr result_text)].

(** The body of [for block in content_blocks]. *)
Definition dispatch_block (block : json) (tool_results : list json)
  : M session (list json) :=
  let! type := lift (getitem block "type") in
  let! shown :=
    (if eq_str type "text" then
       let! text := lift (getitem block "text") in
       match text with
       | JStr t => say (EvText t)
       | _ => raise (type_error "expected string or bytes-like object")
       end
     else ret tt) in
  if eq_str type "tool_use" then
    let! tool_name := lift (getitem block "name") in
    let! tool_args := lift (getitem block "input") in
    let! vals := lift (values tool_args) in
    let! first := lift (getitem0 (JArr vals)) in
    match tool_name with
    | JStr name =>
        let! announced := say (EvToolCall name first) in
        let! result_text := in_host (run_tool name tool_args) in
        let! previewed := say (EvToolResult result_text) in
        let! id := lift (getitem block "id") in
        ret (tool_results ++ [tool_result_block id result_text])
    | _ => raise (attribute_error tool_name "capitalize")
    end
  else ret tool_results.

Fixpoint dispatch (blocks : list json) (tool_results : list json)
  : M session (list json) :=
  match blocks with
  | [] => ret tool_results
  | block :: rest =>
      let! tool_results' := dispatch_block block tool_results in
      dispatch rest tool_results'
  end.

Definition turn (role : string) (content : json) : json :=
  JObj [("role", JStr role); ("content", content)].

(** One round of the inner [while True] of [main], up to the append of the
    assistant turn; it returns [tool_results]. *)
Definition round (cfg : config) (system_prompt : string) : M session (list json) :=
  let! msgs := get_messages in
  let! response := call_api cfg msgs system_prompt in
  let! content_blocks := lift (get_default response "content" (JArr [])) in
  let! blocks := lift (iterate content_blocks) in
  let! tool_results := dispatch blocks [] in
  let! recorded := append_turn (turn "assistant" content_blocks) in
  ret tool_results.

(** The inner [while True] of [main].  Every round takes one outcome from
    [net], so [S (length net)] rounds of [fuel] are never used up. *)
Fixpoint agent_loop (cfg : config) (system_prompt : string) (fuel : nat)
  : M session unit :=
  match fuel with
  | 0 => hang
  | S fuel' =>
      let! tool_results := round cfg system_prompt in
      match tool_results with
      | [] => ret tt
      | _ =>
          let! answered := append_turn (turn "user" (JArr tool_results)) in
          agent_loop cfg system_prompt fuel'
      end
  end.

Definition make_system_prompt (cfg : config) : string :=
  "Concise coding assistant." +:+ newline +:+ system_info cfg +:+ newline
  +:+ "Provide OS-appropriate commands and file paths based on the system information above.".

(** What [input()] does: it returns a line, or [KeyboardInterrupt] is
    raised.  The end of the list is the end of the input ([EOFError]). *)
Inductive user_event :=
| Line (raw : string)
| Interrupt.

(** One user prompt: the append of the user turn and the agent loop, as the
    [try] block of [main] runs them. *)
Definition prompt_body (cfg : config) (user_input : string) : M session unit :=
  let! recorded := append_turn (turn "user" (JStr user_input)) in
  fun s => agent_loop cfg (make_system_prompt cfg) (S (length (net s))) s.

(** [except (KeyboardInterrupt, EOFError): break] *)
Definition breaks (e : exn) : bool :=
  match exn_cls e with
  | KeyboardInterrupt | EOFError => true
  | _ => false
  end.

(** The outer [while True] of [main], once around per user event. *)
Fixpoint repl (cfg : config) (inputs : list user_event) : M session unit :=
  match inputs with
  | [] => ret tt
  | Interrupt :: _ => ret tt
  | Line raw :: rest =>
      let user_input := PyStr.strip raw in
      if String.eqb user_input "" then repl cfg rest
      else if String.eqb user_input "/q" || String.eqb user_input "exit" then ret tt
      else if String.eqb user_input "/c" then
        let! cleared := set_messages [] in
        let! shown := say EvCleared in
        repl cfg rest
      else if String.eqb user_input "/i" then
        let! shown := say EvSystemInfo in
        repl cfg rest
      else
        fun s =>
          match prompt_body cfg user_input s with
          | (Ret _, s') => repl cfg rest s'
          | (Raise e, s') =>
              if breaks e then (Ret tt, s')
              else (let! shown := say (EvError (exn_str e)) in repl cfg rest) s'
          | (Hang, s') => (Hang, s')
          end
  end.

Definition main (cfg : config) (w : world) (network : list (result json))
    (inputs : list user_event) : result unit * session :=
  repl cfg inputs (Session w [] network).

(** * Vocabulary of the specification *)

(** [old] occurs in [text]. *)
Definition occurs (old text : string) : Prop :=
  exists before after, text = before +:+ old +:+ after.

(** Code that raises nothing but subclasses of [Exception]. *)
Definition raises_exceptions_only {A} (r : result A) : Prop :=
  forall e, r = Raise e -> is_Exception e = true.

Definition only_exceptions {S A} (m : M S A) : Prop :=
  forall s, raises_exceptions_only (fst (m s)).

(** A [tool_use] block as the providers send it. *)
Definition tool_use_block (id : json) (name : string) (input : json) : json :=
  JObj [("type", JStr "tool_use"); ("id", id); ("name", JStr name); ("input", input)].

(** The state after [print] of one event. *)
Definition printed (w : world) (ev : event) : world :=
  with_trace w (trace w ++ [ev]).

(** A host without files, where no pattern is valid and no command starts. *)
Definition bare_world (fs : gmap string node) : world :=
  World fs 0 [] (fun _ => None) (fun _ _ => []) (fun _ _ => 0%Z)
        (fun _ => None) (fun _ _ => false) (fun _ _ => inl "[Errno 2] No such file or directory: '/bin/sh'").

Definition greeting : string := "hello world" +:+ newline +:+ "bye" +:+ newline.

Definition demo_world : world := bare_world (<["a.txt" := File greeting None]> ∅).

(** [sleep 60]: no output, the pipe closes and the process exits after 60
    seconds. *)
Definition sleep_60 (fs : gmap string node) : process :=
  Process [] (Some 60) (Some 60) fs.

(** A host whose shell knows [sleep 60]. *)
Definition shell_world : world :=
  World ∅ 0 [] (fun _ => None) (fun _ _ => []) (fun _ _ => 0%Z)
        (fun _ => None) (fun _ _ => false)
        (fun fs cmd => if eq_str cmd "sleep 60" then inr (sleep_60 fs)
                       else inl "[Errno 2] No such file or directory").

(** A token without upper-case letters. *)
Definition is_lowercase (s : string) : Prop := PyStr.lower s = s.

(** The content of a decoded response: one text block with a notice. *)
Definition notice (text : string) : json :=
  JObj [("content", JArr [text_block (JStr text)])].

(** A Gemini response with one candidate made of the given parts. *)
Definition gemini_reply (parts : list json) : json :=
  JObj [("candidates", JArr [JObj [("content", JObj [("parts", JArr parts)])]])].

Definition function_call (fields : list (string * json)) : json :=
  JObj [("functionCall", JObj fields)].

(** [enumerate(lines, n)] *)
Fixpoint enumerate (n : nat) (lines : list string) : list (nat * string) :=
  match lines with
  | [] => []
  | line :: rest => (n, line) :: enumerate (S n) rest
  end.

(** [path:line_number:text] *)
Definition hit (filepath : string) (numbered : nat * string) : string :=
  filepath +:+ ":" +:+ PyStr.of_nat (fst numbered) +:+ ":" +:+ PyStr.rstrip (snd numbered).

(** The lines of one file that [grep] reports: none for a path that is not
    a file that opens. *)
Definition file_hits (w : world) (pattern filepath : string) : list string :=
  match files w !! filepath with
  | Some (File text _) =>
      map (hit filepath)
          (List.filter (fun numbered => re_search w pattern (snd numbered))
                       (enumerate 1 (PyStr.splitlines text)))
  | _ => []
  end.

Definition all_hits (w : world) (pattern root : string) : list string :=
  flat_map (file_hits w pattern) (os_glob w (files w) root).

(** A host with two files and a directory, where a pattern matches the
    lines that contain it. *)
Definition grep_world : world :=
  World (<["src" := Dir]>
         (<["src/a.txt" := File greeting None]>
          (<["src/b.txt" := File ("bye bye" +:+ newline) (Some "invalid start byte")]> ∅)))
        0 [] (fun _ => None)
        (fun _ _ => ["src"; "src/a.txt"; "src/gone.txt"; "src/b.txt"])
        (fun _ _ => 0%Z) (fun _ => None)
        (fun pattern line => PyStr.contains pattern line)
        (fun _ _ => inl "[Errno 2] No such file or directory").

(** ** The conversation *)

Definition role_of (t : json) : option string :=
  match getitem t "role" with Ret (JStr r) => Some r | _ => None end.

(** The content blocks of a turn; a turn whose content is text has none. *)
Definition blocks_of (t : json) : list json :=
  match getitem t "content" with Ret (JArr blocks) => blocks | _ => [] end.

(** [block["type"] == kind] *)
Definition is_block (kind : string) (block : json) : bool :=
  match getitem block "type" with Ret t => eq_str t kind | _ => false end.

(** The ids of the [tool_use] blocks of a turn. *)
Definition tool_use_ids (t : json) : list json :=
  flat_map (fun block =>
              if is_block "tool_use" block
              then match getitem block "id" with Ret id => [id] | _ => [] end
              else [])
           (blocks_of t).

(** The [tool_use_id]s of the [tool_result] blocks of a turn. *)
Definition tool_result_ids (t : json) : list json :=
  flat_map (fun block =>
              if is_block "tool_result" block
              then match getitem block "tool_use_id" with Ret id => [id] | _ => [] end
              else [])
           (blocks_of t).

(** Every tool result of a user turn answers a tool use of the assistant
    turn just before it. *)
Definition user_results_follow_calls (msgs : list json) : Prop :=
  forall (i : nat) (t id : json),
    msgs !! i = Some t -> role_of t = Some "user" -> In id (tool_result_ids t) ->
    exists j p, i = S j /\ msgs !! j = Some p /\
                role_of p = Some "assistant" /\ In id (tool_use_ids p).

(** Every tool result, in whatever turn, sits in a user turn and answers a
    tool use of the assistant turn just before it. *)
Definition results_follow_calls (msgs : list json) : Prop :=
  forall (i : nat) (t id : json),
    msgs !! i = Some t -> In id (tool_result_ids t) ->
    role_of t = Some "user" /\
    exists j p, i = S j /\ msgs !! j = Some p /\
                role_of p = Some "assistant" /\ In id (tool_use_ids p).

(** Every tool use has an id that is a non-empty string. *)
Definition tool_use_ids_not_empty (msgs : list json) : Prop :=
  forall (t id : json),
    In t msgs -> In id (tool_use_ids t) -> exists s, id = JStr s /\ s <> "".

(** The content of a turn is something, not the empty list or text. *)
Definition content_not_empty (t : json) : Prop :=
  getitem t "content" <> Ret (JArr []) /\ getitem t "content" <> Ret (JStr "").

(** A block the Gemini decoder produces: text, or a tool use whose id is a
    string that ends in [_call]. *)
Definition decoded_block (block : json) : Prop :=
  (exists text, block = text_block text) \/
  (exists name_text name input,
     block = JObj [("type", JStr "tool_use"); ("id", JStr (name_text +:+ "_call"));
                   ("name", name); ("input", input)]).

(** What an assistant turn can hold: with Gemini a list of decoded blocks,
    with the other providers whatever the provider sent. *)
Definition assistant_content (P : provider) (content : json) : Prop :=
  is_gemini P = true -> exists blocks, content = JArr blocks /\ Forall decoded_block blocks.

(** The tool results the loop builds from the blocks of a reply. *)
Definition answers (blocks results : list json) : Prop :=
  Forall (fun r => exists block id text,
              In block blocks /\ is_block "tool_use" block = true /\
              getitem block "id" = Ret id /\ r = tool_result_block id text)
         results.

(** The conversations the loop builds, turn by turn. *)
Inductive conversation (P : provider) : list json -> Prop :=
| conv_empty : conversation P []
| conv_prompt msgs text :
    conversation P msgs -> text <> "" ->
    conversation P (msgs ++ [turn "user" (JStr text)])
| conv_reply msgs content :
    conversation P msgs -> assistant_content P content ->
    conversation P (msgs ++ [turn "assistant" content])
| conv_results msgs blocks results :
    conversation P msgs -> assistant_content P (JArr blocks) ->
    results <> [] -> answers blocks results ->
    conversation P (msgs ++ [turn "assistant" (JArr blocks);
                             turn "user" (JArr results)]).

(** The conversation and the transport are as before. *)
Definition same_talk (s s' : session) : Prop :=
  messages s' = messages s /\ net s' = net s.

(** Postconditions: [Q] holds of the outcome of [m] run from [s]. *)
Definition wp {S A} (m : M S A) (Q : result A -> S -> Prop) (s : S) : Prop :=
  Q (fst (m s)) (snd (m s)).

Definition anthropic_cfg : config := Config Anthropic "claude-opus-4-5" "OS: Linux".
Definition gemini_cfg : config := Config Gemini "gemini-2.0-flash-exp" "OS: Linux".

(** A reply of a Style-A provider with the given content blocks. *)
Definition reply (blocks : list json) : json := JObj [("content", JArr blocks)].

(** A provider that asks for [a.txt] with an empty tool-use id, then says
    [done]. *)
Definition nameless_call_net : list (result json) :=
  [Ret (reply [tool_use_block (JStr "") "read" (JObj [("path", JStr "a.txt")])]);
   Ret (reply [text_block (JStr "done")])].

(** Gemini asks for a [glob], then says [done]. *)
Definition glob_call_net : list (result json) :=
  [Ret (gemini_reply [function_call [("name", JStr "glob");
                                     ("args", JObj [("pat", JStr "*")])]]);
   Ret (gemini_reply [JObj [("text", JStr "done")]])].

(** The transport fails at the first call. *)
Definition failing_net : list (result json) :=
  [Raise (Exn URLError "<urlopen error timed out>")].

(** The turn before position [i]. *)
Definition before (msgs : list json) (i : nat) : option json :=
  match i with 0 => None | S j => msgs !! j end.

(** [holds prev t] for every turn [t] and the turn [prev] before it. *)
Definition each_turn (holds : option json -> json -> Prop) (msgs : list json) : Prop :=
  forall i t, msgs !! i = Some t -> holds (before msgs i) t.

(** What the loop keeps true of a turn, given the turn before it. *)
Definition turn_ok (P : provider) (prev : option json) (t : json) : Prop :=
  (forall id, role_of t = Some "user" -> In id (tool_result_ids t) ->
     exists p, prev = Some p /\ role_of p = Some "assistant" /\ In id (tool_use_ids p)) /\
  (is_gemini P = true ->
     (forall id, In id (tool_result_ids t) -> role_of t = Some "user") /\
     (forall id, In id (tool_use_ids t) -> exists s, id = JStr s /\ s <> "")) /\
  (role_of t = Some "user" -> content_not_empty t).

(** A line the REPL sends to the provider: not blank and not a command. *)
Definition is_prompt (user_input : string) : bool :=
  negb (String.eqb user_input "")
  && negb (String.eqb user_input "/q" || String.eqb user_input "exit")
  && negb (String.eqb user_input "/c")
  && negb (String.eqb user_input "/i").

(** An entry of the Gemini [contents] with at least one part. *)
Definition has_parts (entry : json) : Prop :=
  exists role parts,
    entry = JObj [("role", JStr role); ("parts", JArr parts)] /\ parts <> [].

(** The session in which the user has just said [hi] and the transport is
    about to fail. *)
Definition waiting_session : session :=
  Session demo_world [turn "user" (JStr "hi")] failing_net.

Definition timed_out : exn := Exn URLError "<urlopen error timed out>".

(** The request that carries the conversation [hi] to a Style-A provider. *)
Definition hi_request : json :=
  JObj [("model", JStr "claude-opus-4-5");
        ("max_tokens", JInt 8192);
        ("system", JStr (make_system_prompt anthropic_cfg));
        ("messages", JArr [turn "user" (JStr "hi")]);
        ("tools", JArr (make_schema Anthropic))].

(** ** More vocabulary: tools *)


(** A line as [read] shows it, with its number. *)
Definition numbered (n : Z) (line : string) : string :=
  PyStr.rjust 4 (PyStr.of_Z n) +:+ "| " +:+ line.

(** The arguments of a call that names only the path. *)
Definition just_path (path : json) : json := JObj [("path", path)].

(** The sort key of [glob]: the modification time of a file, 0 for
    anything else. *)
Definition mtime_key (w : world) (f : string) : Z :=
  if isfile (files w) f then os_mtime w (files w) f else 0%Z.

(** [a] is listed before [b]: it is not older. *)
Definition not_older (w : world) (a b : string) : Prop :=
  (mtime_key w b <= mtime_key w a)%Z.

(** The latest time at which a line of output becomes readable. *)
Definition last_output (lines : list (nat * string)) (t : nat) : nat :=
  fold_left Nat.max (map fst lines) t.

(** The host after a tool has changed files at most. *)
Definition files_changed_only (w w' : world) : Prop :=
  w' = with_files w (files w').

(** [a.txt] with three lines. *)
Definition three_lines : string :=
  "one" +:+ newline +:+ "two" +:+ newline +:+ "three" +:+ newline.

Definition notes_world : world := bare_world (<["notes.txt" := File three_lines None]> ∅).

(** A host where [glob] finds a directory and two files of different age. *)
Definition glob_world : world :=
  World (<["src" := Dir]>
         (<["old.txt" := File "" None]> (<["new.txt" := File "" None]> ∅)))
        0 [] (fun _ => None)
        (fun _ _ => ["old.txt"; "src"; "new.txt"])
        (fun _ f => if String.eqb f "new.txt" then 200%Z else 100%Z)
        (fun _ => None) (fun _ _ => false)
        (fun _ _ => inl "[Errno 2] No such file or directory").

(** Code that leaves the host as it found it. *)
Definition leaves_host {A} (m : M world A) : Prop :=
  forall w, snd (m w) = w.


(** A list in which no entry comes before one with a greater key. *)
Fixpoint descending (key : string -> Z) (l : list string) : Prop :=
  match l with
  | [] => True
  | x :: rest => Forall (fun y => (key y <= key x)%Z) rest /\ descending key rest
  end.

(** A process that prints [hello] at once, [bye] after 5 seconds, closes
    its output after 6 and exits after 7. *)
Definition chatty (fs : gmap string node) : process :=
  Process [(0, "hello" +:+ newline); (5, "bye" +:+ newline)] (Some 6) (Some 7) fs.

(** A process that prints a line and then never exits. *)
Definition daemon (fs : gmap string node) : process :=
  Process [(0, "listening" +:+ newline)] (Some 1) None fs.

(** A host whose shell runs the given process, whatever the command. *)
Definition host_running (p : gmap string node -> process) : world :=
  World ∅ 0 [] (fun _ => None) (fun _ _ => []) (fun _ _ => 0%Z)
        (fun _ => None) (fun _ _ => false) (fun fs _ => inr (p fs)).

(** What [bash] prints for a line of output. *)
Definition progress (timed_line : nat * string) : event :=
  EvBashLine (PyStr.rstrip (snd timed_line)).

(** ** More vocabulary: schemas, Gemini, the loop *)

(** The key under which a provider expects the parameters of a tool. *)
Definition schema_body (P : provider) : string :=
  if is_gemini P then "parameters" else "input_schema".

Definition object_tag (P : provider) : string :=
  if is_gemini P then "OBJECT" else "object".

(** A conversation of text turns, given as pairs of role and text. *)
Definition text_turns (turns : list (string * string)) : list json :=
  map (fun rt => turn (fst rt) (JStr (snd rt))) turns.

(** The Gemini entry for a text turn. *)
Definition gemini_text_entry (rt : string * string) : json :=
  JObj [("role", JStr (if String.eqb (fst rt) "user" then "user" else "model"));
        ("parts", JArr [JObj [("text", JStr (snd rt))]])].

(** A block exactly as the Gemini decoder builds it: text, or a tool use
    whose id is its name followed by [_call]. *)
Definition gemini_block (block : json) : Prop :=
  (exists text, block = text_block text) \/
  (exists name input, block = tool_use_block (JStr (name +:+ "_call")) name input).

(** The [tool_use] blocks among the blocks of a reply. *)
Definition tool_uses (blocks : list json) : list json :=
  List.filter (is_block "tool_use") blocks.

(** An input that does not make the REPL call the provider: a blank line,
    a command, an interrupt. *)
Definition quiet (ev : user_event) : Prop :=
  match ev with
  | Line raw => is_prompt (PyStr.strip raw) = false
  | Interrupt => True
  end.

(** An event the commands of the REPL print. *)
Definition command_output (ev : event) : Prop :=
  ev = EvCleared \/ ev = EvSystemInfo.

(** The two turns of a round in which the provider asks for a tool that is
    not registered. *)
Definition unknown_tool_round (id : json) (name : string) (args : json) : list json :=
  [turn "assistant" (JArr [tool_use_block id name args]);
   turn "user" (JArr [tool_result_block id ("error: " +:+ PyStr.repr name)])].

(** [n] times the same rounds. *)
Fixpoint rounds (n : nat) (round_turns : list json) : list json :=
  match n with
  | 0 => []
  | S k => round_turns ++ rounds k round_turns
  end.

(** The conversations of the loop, with the order of the roles: a prompt
    can follow anything, a reply follows a user turn, tool results follow
    the reply they answer. *)
Inductive dialogue : list json -> Prop :=
| dialogue_empty : dialogue []
| dialogue_prompt msgs text :
    dialogue msgs -> dialogue (msgs ++ [turn "user" (JStr text)])
| dialogue_reply msgs u content :
    dialogue (msgs ++ [u]) -> role_of u = Some "user" ->
    dialogue ((msgs ++ [u]) ++ [turn "assistant" content])
| dialogue_results msgs content results :
    dialogue (msgs ++ [turn "assistant" content]) ->
    dialogue ((msgs ++ [turn "assistant" content]) ++ [turn "user" (JArr results)]).

(** The last turn is a user turn: the state in which a round starts. *)
Definition awaits_reply (msgs : list json) : Prop :=
  exists before u, msgs = before ++ [u] /\ role_of u = Some "user".

(** A turn in its place: an assistant turn comes right after a user turn,
    and the first turn is a prompt. *)
Definition in_its_place (prev : option json) (t : json) : Prop :=
  (role_of t = Some "assistant" ->
   exists p, prev = Some p /\ role_of p = Some "user") /\
  (prev = None -> exists text, t = turn "user" (JStr text)).

(** * Facts about the string methods *)

Section StringFacts.

Import PyStr.

Lemma append_nil_r (s : string) : s +:+ "" = s.
Proof. induction s as [|c s IH]; simpl; [reflexivity | now rewrite IH]. Qed.

Lemma append_assoc (a b c : string) : (a +:+ b) +:+ c = a +:+ (b +:+ c).
Proof. induction a as [|x a IH]; simpl; [reflexivity | now rewrite IH]. Qed.

Lemma length_append (a b : string) :
  String.length (a +:+ b) = String.length a + String.length b.
Proof. induction a as [|x a IH]; simpl; [reflexivity | now rewrite IH]. Qed.

Lemma cons_not_nil (c : ascii) (s : string) : String c s <> "".
Proof. discriminate. Qed.

Lemma append_eq_nil (a b : string) : a +:+ b = "" -> a = "" /\ b = "".
Proof. destruct a; simpl; [auto | discriminate]. Qed.

Lemma startswith_append (p r : string) : startswith p (p +:+ r) = true.
Proof.
  induction p as [|c p IH]; simpl; [reflexivity |].
  now rewrite Ascii.eqb_refl, IH.
Qed.

Lemma startswith_drop (p s : string) :
  startswith p s = true -> s = p +:+ drop (String.length p) s.
Proof.
  revert s; induction p as [|c p IH]; intros s H; simpl in *; [reflexivity |].
  destruct s as [|d s]; [discriminate |].
  apply andb_true_iff in H as [Hc Hp].
  apply Ascii.eqb_eq in Hc; subst d.
  now rewrite <- (IH s Hp).
Qed.

Lemma not_occurs_nil (old : string) : old <> "" -> ~ occurs old "".
Proof.
  intros Hne (before & after & H).
  symmetry in H. apply append_eq_nil in H as [_ H].
  apply append_eq_nil in H as [H _]. contradiction.
Qed.

Lemma partition_some (sep s a b : string) :
  partition sep s = Some (a, b) -> s = a +:+ sep +:+ b.
Proof.
  revert a b; induction s as [|c s IH]; intros a b H.
  - simpl in H. destruct (startswith sep "") eqn:E; [| discriminate].
    injection H as <- <-. now apply startswith_drop.
  - cbn [partition] in H. destruct (startswith sep (String c s)) eqn:E.
    + injection H as <- <-. now apply startswith_drop.
    + destruct (partition sep s) as [[a' b']|]; [| discriminate].
      injection H as <- <-. simpl. now rewrite <- (IH a' b').
Qed.

Lemma partition_none (sep s : string) :
  partition sep s = None -> ~ occurs sep s.
Proof.
  induction s as [|c s IH]; intros H (before & after & Hs).
  - simpl in H. destruct (startswith sep "") eqn:E; [discriminate |].
    symmetry in Hs. apply append_eq_nil in Hs as [_ Hs].
    apply append_eq_nil in Hs as [-> _]. discriminate.
  - cbn [partition] in H. destruct (startswith sep (String c s)) eqn:E;
      [discriminate |].
    destruct before as [|d before]; simpl in Hs.
    + rewrite Hs, startswith_append in E. discriminate.
    + destruct (partition sep s) as [[a' b']|]; [discriminate |].
      injection Hs as _ Hs. apply IH; [reflexivity |]. now exists before, after.
Qed.

(** [partition] splits at the leftmost occurrence. *)
Lemma partition_leftmost (sep s a b : string) :
  partition sep s = Some (a, b) ->
  forall a' b', s = a' +:+ sep +:+ b' -> String.length a <= String.length a'.
Proof.
  revert a b; induction s as [|c s IH]; intros a b H a' b' Hs.
  - simpl in H. destruct (startswith sep ""); [| discriminate].
    injection H as <- <-. simpl; lia.
  - cbn [partition] in H. destruct (startswith sep (String c s)) eqn:E.
    + injection H as <- <-. simpl; lia.
    + destruct (partition sep s) as [[a0 b0]|] eqn:P; [| discriminate].
      injection H as <- <-.
      destruct a' as [|d a']; simpl in Hs.
      * rewrite Hs, startswith_append in E. discriminate.
      * injection Hs as _ Hs. simpl.
        specialize (IH a0 b0 eq_refl a' b' Hs). lia.
Qed.

Lemma partition_before_clean (sep s a b : string) :
  sep <> "" -> partition sep s = Some (a, b) -> ~ occurs sep a.
Proof.
  intros Hne H (x & y & Ha).
  pose proof (partition_some _ _ _ _ H) as Hs.
  rewrite Ha in Hs. rewrite !append_assoc in Hs.
  pose proof (partition_leftmost _ _ _ _ H _ _ Hs) as Hlen.
  rewrite Ha, !length_append in Hlen.
  destruct sep; [contradiction | simpl in Hlen; lia].
Qed.

Lemma partition_shorter (sep s a b : string) :
  sep <> "" -> partition sep s = Some (a, b) -> String.length b < String.length s.
Proof.
  intros Hne H. rewrite (partition_some _ _ _ _ H), !length_append.
  destruct sep; [contradiction | simpl; lia].
Qed.

Lemma contains_occurs (old text : string) :
  contains old text = true <-> occurs old text.
Proof.
  unfold contains. destruct (partition old text) as [[a b]|] eqn:P.
  - split; [intros _ | reflexivity]. exists a, b. now apply partition_some.
  - split; [discriminate |]. intros H. now apply partition_none in P.
Qed.

Lemma join_cons (sep x : string) (l : list string) :
  l <> [] -> join sep (x :: l) = x +:+ sep +:+ join sep l.
Proof. destruct l; [contradiction | reflexivity]. Qed.

(** Replacing without limit cuts the text at the occurrences the scan
    finds and joins the pieces with [new]; [count_scan] counts the cuts. *)
Lemma replace_scan_pieces (old new : string) :
  old <> "" ->
  forall fuel s, String.length s <= fuel ->
    exists pieces,
      s = join old pieces /\
      replace_scan fuel old new s None = join new pieces /\
      length pieces = S (count_scan fuel old s) /\
      Forall (fun piece => ~ occurs old piece) pieces.
Proof.
  intros Hne. induction fuel as [|fuel IH]; intros s Hlen.
  - destruct s; [| simpl in Hlen; lia].
    exists [""]. repeat split; auto. constructor; [| constructor].
    now apply not_occurs_nil.
  - simpl. destruct (partition old s) as [[a b]|] eqn:P.
    + pose proof (partition_shorter _ _ _ _ Hne P) as Hb.
      destruct (IH b ltac:(lia)) as (pieces & Hj & Hr & Hn & Hall).
      assert (pieces <> []) by (intros ->; discriminate).
      exists (a :: pieces). repeat split.
      * rewrite join_cons by assumption. rewrite <- Hj. now apply partition_some.
      * rewrite join_cons by assumption. now rewrite Hr.
      * simpl. now rewrite Hn.
      * constructor; [| assumption]. now apply (partition_before_clean old s a b).
    + exists [s]. repeat split; auto. constructor; [| constructor].
      now apply partition_none.
Qed.

(** The pieces of a text cut between all its characters. *)
Lemma interleave_pieces (new s : string) :
  exists pieces,
    s = join "" pieces /\
    interleave new s None = join new pieces /\
    length pieces = S (S (String.length s)).
Proof.
  assert (H : exists tail, tail <> [] /\ s = join "" tail /\
                           interleave new s None = new +:+ join new tail /\
                           length tail = S (String.length s)).
  { induction s as [|c s (tail & Hne & Hj & Hi & Hn)].
    - exists [""]. repeat split; auto. simpl. now rewrite append_nil_r.
    - exists (String c "" :: tail). repeat split.
      + discriminate.
      + rewrite join_cons by assumption. simpl. now rewrite <- Hj.
      + rewrite join_cons by assumption. simpl. rewrite Hi.
        reflexivity.
      + simpl. now rewrite Hn. }
  destruct H as (tail & Hne & Hj & Hi & Hn).
  exists ("" :: tail). repeat split.
  - rewrite join_cons by assumption. exact Hj.
  - rewrite join_cons by assumption. exact Hi.
  - simpl. now rewrite Hn.
Qed.

Lemma count_positive (old text : string) :
  0 < count old text -> contains old text = true.
Proof.
  unfold count, contains. destruct old as [|c old].
  - intros _. destruct text; reflexivity.
  - destruct (String.length text); simpl; [lia |].
    destruct (partition (String c old) text) as [[a b]|]; [reflexivity | lia].
Qed.

Lemma count_zero (old text : string) :
  count old text = 0 <-> ~ occurs old text.
Proof.
  rewrite <- contains_occurs. split.
  - intros H Hc. unfold count, contains in *. destruct old as [|c old];
      [discriminate |].
    destruct (partition (String c old) text) as [[a b]|] eqn:P;
      [| simpl in Hc; discriminate].
    pose proof (partition_shorter _ _ _ _ (cons_not_nil c old) P).
    destruct (String.length text); [lia |]. simpl in H. rewrite P in H.
    discriminate.
  - intros H. destruct (count old text) eqn:E; [reflexivity |].
    exfalso. apply H, count_positive. lia.
Qed.

(** A text with one counted occurrence: both ways of replacing rewrite the
    leftmost occurrence, and nothing else. *)
Lemma replace_single (old new text : string) (max : option nat) :
  count old text = 1 -> max = None \/ max = Some 1 ->
  exists before after,
    text = before +:+ old +:+ after /\
    replace old new text max = before +:+ new +:+ after /\
    (forall b a, text = b +:+ old +:+ a -> String.length before <= String.length b) /\
    (old <> "" -> ~ occurs old after).
Proof.
  intros Hc Hmax. unfold count, replace in *. destruct old as [|c old].
  - injection Hc as Hc. destruct text; [| discriminate].
    exists "", "". repeat split.
    + destruct Hmax as [-> | ->]; simpl; now rewrite ?append_nil_r.
    + intros; simpl; lia.
    + intros H; contradiction.
  - destruct (String.length text) as [|fuel] eqn:L; [discriminate |].
    simpl in Hc. simpl replace_scan.
    destruct (partition (String c old) text) as [[a b]|] eqn:P; [| discriminate].
    injection Hc as Hc.
    assert (Hb : partition (String c old) b = None \/ fuel = 0).
    { destruct fuel; [now right | left]. simpl in Hc.
      destruct (partition (String c old) b) as [[? ?]|]; [discriminate | reflexivity]. }
    assert (Hrest : forall m, replace_scan fuel (String c old) new b m = b).
    { intros m. destruct Hb as [Hb | ->]; [| reflexivity].
      destruct fuel; [reflexivity |]. simpl. rewrite Hb. now destruct (spent m). }
    exists a, b. repeat split.
    + now apply partition_some.
    + destruct Hmax as [-> | ->]; simpl; now rewrite Hrest.
    + now apply (partition_leftmost _ _ _ _ P).
    + intros _. destruct Hb as [Hb | ->]; [now apply partition_none |].
      pose proof (partition_shorter _ _ _ _ (cons_not_nil c old) P) as Hlt.
      assert (b = "") as -> by (destruct b; [reflexivity | simpl in Hlt; lia]).
      apply not_occurs_nil. discriminate.
Qed.

(** Replacing without limit: the text is cut into [count + 1] pieces at
    occurrences of [old], and the pieces are joined with [new]. *)
Lemma replace_all_pieces (old new text : string) :
  exists pieces,
    text = join old pieces /\
    replace old new text None = join new pieces /\
    length pieces = S (count old text) /\
    (old <> "" -> Forall (fun piece => ~ occurs old piece) pieces).
Proof.
  unfold replace, count. destruct old as [|c old].
  - destruct (interleave_pieces new text) as (pieces & Hj & Hi & Hn).
    exists pieces. repeat split; auto. intros H; contradiction.
  - destruct (replace_scan_pieces (String c old) new (cons_not_nil c old)
                (String.length text) text (le_n _)) as (pieces & Hj & Hr & Hn & Hall).
    exists pieces. repeat split; auto.
Qed.

End StringFacts.

(** * The replace-text tool *)

Section Edit.

Import PyStr.

Variables (w : world) (args : json) (path text old new : string) (all : json).
Hypothesis Hpath : getitem args "path" = Ret (JStr path).
Hypothesis Hold : getitem args "old" = Ret (JStr old).
Hypothesis Hnew : getitem args "new" = Ret (JStr new).
Hypothesis Hall : get_default args "all" JNull = Ret all.
Hypothesis Hfile : files w !! path = Some (File text None).

(** [edit] up to the decision, with the arguments and the file read. *)
Lemma edit_unfold :
  edit args w =
    if negb (contains old text) then (Ret "error: old_string not found", w)
    else if negb (truthy all) && (1 <? count old text) then
      (Ret ("error: old_string appears " +:+ PyStr.of_nat (count old text)
            +:+ " times, must be unique (use all=true)"), w)
    else
      (let! p := open_write (JStr path) in
       let! done := write_text p
                      (JStr (if truthy all then replace old new text None
                             else replace old new text (Some 1))) in
       ret "ok") w.
Proof.
  unfold edit, bind at 1, lift. rewrite Hpath.
  unfold bind at 1, open_read. rewrite Hfile.
  unfold bind at 1. cbn [read_all].
  unfold bind at 1. rewrite Hold.
  unfold bind at 1. rewrite Hnew.
  destruct (negb (contains old text)); [reflexivity |].
  unfold bind at 1. rewrite Hall.
  destruct (negb (truthy all) && (1 <? count old text)); reflexivity.
Qed.

Lemma edit_writes (replacement : string) :
  os_write_denied w path = None ->
  (let! p := open_write (JStr path) in
   let! done := write_text p (JStr replacement) in
   ret "ok") w
  = (Ret "ok", with_files w (<[path := File replacement None]> (files w))).
Proof.
  intros Hw. unfold bind, open_write, write_text, ret, with_files.
  rewrite Hw, Hfile. cbn. now rewrite insert_insert_eq.
Qed.

End Edit.


(** * The registry dispatch *)

Create HintDb safe discriminated.

Lemma ret_safe {S A} (a : A) : only_exceptions (@ret S A a).
Proof. intros s e H. discriminate. Qed.

Lemma raise_safe {S A} (e : exn) :
  is_Exception e = true -> only_exceptions (@raise S A e).
Proof. intros He s e' H. cbn in H. now injection H as <-. Qed.

Lemma lift_safe {S A} (r : result A) :
  raises_exceptions_only r -> only_exceptions (@lift S A r).
Proof. intros Hr s. exact Hr. Qed.

Lemma bind_safe {S A B} (m : M S A) (k : A -> M S B) :
  only_exceptions m -> (forall a, only_exceptions (k a)) ->
  only_exceptions (bind m k).
Proof.
  intros Hm Hk s e. unfold bind. specialize (Hm s).
  destruct (m s) as [[a| e' |] s'] eqn:E; cbn.
  - apply Hk.
  - intros H. injection H as <-. now apply Hm.
  - discriminate.
Qed.

Lemma try_except_safe {S A} (body : M S A) (handler : exn -> M S A) :
  only_exceptions body -> (forall e, only_exceptions (handler e)) ->
  only_exceptions (try_except body handler).
Proof.
  intros Hb Hh s e. unfold try_except. specialize (Hb s).
  destruct (body s) as [[a| e' |] s'] eqn:E; cbn; try discriminate.
  destruct (is_Exception e') eqn:X; [apply Hh |].
  cbn. intros H. injection H as <-. now apply Hb.
Qed.

Lemma state_read_safe {S A} (f : S -> A) :
  only_exceptions (fun s : S => (Ret (f s), s)).
Proof. intros s e H. discriminate. Qed.

Ltac pure_safe :=
  intros ? ?;
  repeat match goal with
         | H : context [match ?x with _ => _ end] |- _ => destruct x; cbn in H
         | H : Ret _ = Raise _ |- _ => discriminate H
         | H : Raise _ = Raise _ |- _ => injection H as <-
         end;
  try reflexivity; try discriminate.

Lemma getitem_safe (v : json) (k : string) : raises_exceptions_only (getitem v k).
Proof. unfold getitem. pure_safe. Qed.

Lemma getitem0_safe (v : json) : raises_exceptions_only (getitem0 v).
Proof. unfold getitem0. pure_safe. Qed.

Lemma get_default_safe (v : json) (k : string) (d : json) :
  raises_exceptions_only (get_default v k d).
Proof. unfold get_default. pure_safe. Qed.

Lemma concat_safe (a b : json) : raises_exceptions_only (concat a b).
Proof. unfold concat. pure_safe. Qed.

Lemma values_safe (v : json) : raises_exceptions_only (values v).
Proof. unfold values. pure_safe. Qed.

Lemma read_all_safe (f : string * option string) : raises_exceptions_only (read_all f).
Proof. unfold read_all. pure_safe. Qed.

Lemma open_read_safe (path : json) : only_exceptions (open_read path).
Proof.
  intros w e. unfold open_read.
  destruct path; cbn; try (intros H; now injection H as <-).
  destruct (files w !! s) as [[|text bad]|]; cbn; try discriminate;
    intros H; now injection H as <-.
Qed.

Lemma open_write_safe (path : json) : only_exceptions (open_write path).
Proof.
  intros w e. unfold open_write.
  destruct path; cbn; try (intros H; now injection H as <-).
  destruct (os_write_denied w s); cbn; [intros H; now injection H as <- |].
  destruct (files w !! s) as [[|text bad]|]; cbn; try discriminate;
    intros H; now injection H as <-.
Qed.

Lemma write_text_safe (p : string) (content : json) :
  only_exceptions (write_text p content).
Proof.
  intros w e. unfold write_text.
  destruct content; cbn; try discriminate; intros H; now injection H as <-.
Qed.

Lemma re_compile_safe (pat : json) : only_exceptions (re_compile pat).
Proof.
  intros w e. unfold re_compile.
  destruct pat; cbn; try (intros H; now injection H as <-).
  destruct (re_invalid w s); cbn; [| discriminate].
  intros H; now injection H as <-.
Qed.

Lemma popen_safe (cmd : json) : only_exceptions (popen cmd).
Proof.
  intros w e. unfold popen.
  destruct (os_popen w (files w) cmd); cbn; [| discriminate].
  intros H; now injection H as <-.
Qed.

#[local] Hint Resolve ret_safe lift_safe getitem_safe getitem0_safe
  get_default_safe concat_safe values_safe read_all_safe open_read_safe
  open_write_safe write_text_safe re_compile_safe popen_safe
  state_read_safe : safe.

(** Walk through a tool body: binds, branches, and the leaves above. *)
Ltac safe :=
  repeat first
    [ apply bind_safe; [| intros ?]
    | apply raise_safe; reflexivity
    | apply try_except_safe; [| intros ?]
    | solve [auto with safe]
    | match goal with
      | |- only_exceptions (match ?x with _ => _ end) => destruct x
      | |- only_exceptions (if ?b then _ else _) => destruct b
      end ].

Lemma read_safe (args : json) : only_exceptions (read args).
Proof. unfold read. safe. Qed.

Lemma write_safe (args : json) : only_exceptions (write args).
Proof. unfold write. safe. Qed.

Lemma edit_safe (args : json) : only_exceptions (edit args).
Proof. unfold edit. safe. Qed.

Lemma glob_safe (args : json) : only_exceptions (glob args).
Proof. unfold glob. safe. Qed.

Lemma grep_file_safe (pattern : string) (hits : list string) (filepath : string) :
  only_exceptions (grep_file pattern hits filepath).
Proof. unfold grep_file. safe. Qed.

Lemma grep_files_safe (pattern : string) (filepaths hits : list string) :
  only_exceptions (grep_files pattern filepaths hits).
Proof.
  revert hits. induction filepaths as [|f rest IH]; intros hits; cbn [grep_files].
  - apply ret_safe.
  - apply bind_safe; [apply grep_file_safe | intros ?; apply IH].
Qed.

Lemma grep_safe (args : json) : only_exceptions (grep args).
Proof.
  unfold grep.
  repeat (apply bind_safe; [auto using grep_files_safe with safe | intros ?]).
  apply ret_safe.
Qed.

Lemma bash_safe (args : json) : only_exceptions (bash args).
Proof.
  unfold bash. safe. intros w e.
  destruct (run_process a0) as [[run|] out]; cbn; discriminate.
Qed.

Lemma call_tool_safe (name : string) (args : json) :
  only_exceptions (call_tool name args).
Proof.
  unfold call_tool, TOOLS. cbn [lookup_key].
  repeat match goal with
         | |- context [String.eqb name ?k] => destruct (String.eqb name k)
         end;
    auto using read_safe, write_safe, edit_safe, glob_safe, grep_safe, bash_safe.
  apply raise_safe. reflexivity.
Qed.


(** * The shell tool *)

Lemma read_loop_leaves_after_exit (p : process) (pending : list (nat * string)) :
  forall t output_lines shown t' output_lines' shown',
    read_loop p pending t output_lines shown = (Some t', output_lines', shown') ->
    exited p t' = true.
Proof.
  induction pending as [|[ready line] rest IH]; intros t out shown t' out' shown'.
  - cbn. unfold exited. destruct (p_eof p), (p_exit p); try discriminate.
    intros H. injection H as <- _ _. apply Nat.leb_le. lia.
  - cbn [read_loop]. destruct (String.eqb line "").
    + destruct (exited p (Nat.max t ready)) eqn:X.
      * intros H. injection H as <- _ _. exact X.
      * apply IH.
    + apply IH.
Qed.

(** Whenever the shell tool returns, the subprocess had exited by itself:
    [proc.wait(timeout=30)] has nothing left to wait for, the handler of
    [TimeoutExpired] does not run, and the call lasted as long as the
    process did. *)
Lemma bash_never_times_out (p : process) (run : bash_run) (shown : list event) :
  run_process p = (Some run, shown) ->
  killed run = false /\
  exists tx, p_exit p = Some tx /\ tx <= elapsed run.
Proof.
  unfold run_process.
  destruct (read_loop p (p_lines p) 0 [] []) as [[[t|] out] shown'] eqn:L;
    [| discriminate].
  apply read_loop_leaves_after_exit in L. unfold exited in L. unfold wait.
  destruct (p_exit p) as [tx|]; [| discriminate].
  rewrite L. intros H. injection H as <- _. cbn. split; [reflexivity |].
  exists tx. split; [reflexivity |]. now apply Nat.leb_le.
Qed.

(** C2.  The shell tool on [sleep 60]: the call returns after 60 seconds,
    the subprocess is not killed, and the text returned is [(empty)] with
    no timeout marker. *)
Theorem bash_sleep_60_runs_to_its_end :
  run_process (sleep_60 ∅) = (Some (BashRun 60 false "(empty)"), []) /\
  bash (JObj [("cmd", JStr "sleep 60")]) shell_world
  = (Ret "(empty)", with_clock shell_world 60).
Proof. split; reflexivity. Qed.

(** * The Gemini decoder *)

(** C5.  A Gemini response without candidates, or with an empty list of
    candidates, decodes to exactly one text block with the fixed notice,
    and decoding does not raise. *)
Theorem no_candidates_decode_to_notice (fields : list (string * json)) :
  lookup_key "candidates" fields = None \/
  lookup_key "candidates" fields = Some (JArr []) ->
  convert_gemini_response (JObj fields) = Ret (notice "No response from Gemini.").
Proof.
  intros [H | H]; unfold convert_gemini_response; cbn; rewrite H; reflexivity.
Qed.

Lemma no_candidates_decode_witness :
  convert_gemini_response (JObj [("usageMetadata", JObj [])])
  = Ret (notice "No response from Gemini.") /\
  convert_gemini_response (JObj [("candidates", JArr [])])
  = Ret (notice "No response from Gemini.").
Proof.
  split.
  - apply (no_candidates_decode_to_notice [("usageMetadata", JObj [])]).
    left. reflexivity.
  - apply (no_candidates_decode_to_notice [("candidates", JArr [])]).
    right. reflexivity.
Defined.

(** One function-call part with a name that is a string decodes to a
    [tool_use] block whose id is the name followed by [_call]. *)
Lemma gemini_call_id (fields : list (string * json)) (name : string)
    (rest blocks : list json) :
  lookup_key "name" fields = Some (JStr name) ->
  gemini_blocks (function_call fields :: rest) blocks
  = gemini_blocks rest
      (blocks ++ [JObj [("type", JStr "tool_use");
                        ("id", JStr (name +:+ "_call"));
                        ("name", JStr name);
                        ("input", match lookup_key "args" fields with
                                  | Some a => a
                                  | None => JObj []
                                  end)]]).
Proof.
  intros H. cbn. rewrite H. cbn. destruct (lookup_key "args" fields); reflexivity.
Qed.

(** A function-call part without a name is not decoded: the lookup of the
    name raises. *)
Lemma gemini_call_without_name (fields : list (string * json))
    (rest blocks : list json) :
  lookup_key "name" fields = None ->
  gemini_blocks (function_call fields :: rest) blocks = Raise (key_error "name").
Proof. intros H. cbn. rewrite H. reflexivity. Qed.

(** C10.  A function call without a name: the decoder does not produce a
    [tool_use] block with the id [unknown_call]; it raises [KeyError]. *)
Theorem gemini_call_without_name_raises :
  convert_gemini_response (gemini_reply [function_call [("args", JObj [])]])
  = Raise (Exn KeyError "'name'").
Proof. reflexivity. Qed.

(** * Tool schemas *)

(** C7, as stated, fails on the [offset] parameter of [read]: the
    Anthropic tag is [integer], the Gemini tag is [NUMBER]. *)
Lemma number_tag_is_not_recased :
  ~ (forall (tool description : string) (params : list (string * string))
            (fn : json -> M world string) (param param_type : string),
       In (tool, (description, params, fn)) TOOLS ->
       In (param, param_type) params ->
       exists tag,
         schema_tag Anthropic tool param = Some tag /\
         is_lowercase tag /\
         schema_tag Gemini tool param = Some (PyStr.upper tag)).
Proof.
  intros H.
  destruct (H "read" "Read file with line numbers (file path, not directory)"
              [("path", "string"); ("offset", "number?"); ("limit", "number?")]
              read "offset" "number?")
    as (tag & Ha & _ & Hb).
  - left. reflexivity.
  - right. left. reflexivity.
  - vm_compute in Ha. injection Ha as <-. vm_compute in Hb. discriminate.
Qed.

(** C7, amended.  For every parameter of every registered tool, the tag
    of the Anthropic and OpenRouter schemas is a lowercase token; the Gemini
    tag is the same token in upper case for the string and boolean kinds,
    and for the number kind the tags are [integer] and [NUMBER]. *)
Theorem schema_tags_by_provider
    (tool description : string) (params : list (string * string))
    (fn : json -> M world string) (param param_type : string) (P : provider) :
  In (tool, (description, params, fn)) TOOLS ->
  In (param, param_type) params ->
  is_gemini P = false ->
  exists tag,
    schema_tag P tool param = Some tag /\
    tag = prop_type P param_type /\
    is_lowercase tag /\
    (tag = "integer" <-> PyStr.rstrip_char "?" param_type = "number") /\
    schema_tag Gemini tool param
    = Some (if String.eqb tag "integer" then "NUMBER" else PyStr.upper tag).
Proof.
  intros Htool Hparam HP. unfold TOOLS in Htool.
  repeat (destruct Htool as [Htool | Htool];
          [injection Htool as <- <- <- <- |]); try contradiction;
    cbn in Hparam;
    repeat (destruct Hparam as [Hparam | Hparam];
            [injection Hparam as <- <- |]); try contradiction;
    destruct P; try discriminate;
    eexists; (split; [reflexivity |]);
    (split; [reflexivity |]); (split; [reflexivity |]);
    (split; [| reflexivity]);
    vm_compute; split; intros H; first [reflexivity | discriminate H].
Qed.

Lemma schema_tags_witness :
  exists tag,
    schema_tag Anthropic "edit" "all" = Some tag /\
    tag = prop_type Anthropic "boolean?" /\
    is_lowercase tag /\
    (tag = "integer" <-> PyStr.rstrip_char "?" "boolean?" = "number") /\
    schema_tag Gemini "edit" "all"
    = Some (if String.eqb tag "integer" then "NUMBER" else PyStr.upper tag).
Proof.
  apply (schema_tags_by_provider
           "edit" "Replace old with new in file (old must be unique unless all=true)"
           [("path", "string"); ("old", "string"); ("new", "string");
            ("all", "boolean?")] edit "all" "boolean?" Anthropic).
  - right; right; left; reflexivity.
  - right; right; right; left; reflexivity.
  - reflexivity.
Defined.

(** * The search tool *)

Lemma grep_scan_hits (search : string -> bool) (filepath : string)
    (lines : list string) :
  forall line_num hits,
    grep_scan search filepath line_num lines hits
    = hits ++ map (hit filepath)
                  (List.filter (fun numbered => search (snd numbered))
                               (enumerate line_num lines)).
Proof.
  induction lines as [|line rest IH]; intros line_num hits; cbn.
  - now rewrite app_nil_r.
  - rewrite IH. destruct (search line); cbn; [| reflexivity].
    now rewrite <- app_assoc.
Qed.

(** One round of the loop over the files adds the hits of that file and
    never fails, whatever is behind the path. *)
Lemma grep_file_hits (w : world) (pattern filepath : string) (hits : list string) :
  grep_file pattern hits filepath w = (Ret (hits ++ file_hits w pattern filepath), w).
Proof.
  unfold grep_file, file_hits, bind, try_except, open_read, ret.
  destruct (files w !! filepath) as [[|text bad]|]; cbn.
  - now rewrite app_nil_r.
  - now rewrite grep_scan_hits.
  - now rewrite app_nil_r.
Qed.

Lemma grep_files_hits (w : world) (pattern : string) (filepaths : list string) :
  forall hits,
    grep_files pattern filepaths hits w
    = (Ret (hits ++ flat_map (file_hits w pattern) filepaths), w).
Proof.
  induction filepaths as [|f rest IH]; intros hits; cbn.
  - unfold ret. now rewrite app_nil_r.
  - unfold bind. rewrite grep_file_hits, IH. now rewrite <- app_assoc.
Qed.

Lemma firstn_In {A} (n : nat) (l : list A) (x : A) : In x (firstn n l) -> In x l.
Proof.
  revert l; induction n as [|n IH]; intros [|y l]; cbn; try contradiction.
  intros [-> | H]; [now left | right; now apply IH].
Qed.

Lemma join_head (sep x : string) (l : list string) :
  exists tail, PyStr.join sep (x :: l) = x +:+ tail.
Proof.
  destruct l; cbn; [exists ""; now rewrite append_nil_r | eauto].
Qed.

(** A list of hits never prints as [none]: every hit holds a colon. *)
Lemma join_hits_not_none (filepath : string) (numbered : nat * string)
    (rest : list string) :
  PyStr.join newline (hit filepath numbered :: rest) <> "none".
Proof.
  destruct (join_head newline (hit filepath numbered) rest) as (tail & ->).
  unfold hit. rewrite !append_assoc. intros H.
  assert (Hocc : occurs ":" "none") by (eexists _, _; symmetry; exact H).
  apply contains_occurs in Hocc. discriminate.
Qed.

Lemma join_nil_head (sep x : string) (l : list string) :
  PyStr.join sep (x :: l) = "" -> x = "".
Proof.
  destruct l; cbn; [auto |]. intros H. now apply append_eq_nil in H.
Qed.

Lemma hit_not_nil (filepath : string) (numbered : nat * string) :
  hit filepath numbered <> "".
Proof.
  unfold hit. intros H. apply append_eq_nil in H as [_ H]. discriminate.
Qed.

Lemma file_hits_are_hits (w : world) (pattern filepath h : string) :
  In h (file_hits w pattern filepath) ->
  exists line_num line text bad,
    files w !! filepath = Some (File text bad) /\
    In (line_num, line) (enumerate 1 (PyStr.splitlines text)) /\
    re_search w pattern line = true /\
    h = filepath +:+ ":" +:+ PyStr.of_nat line_num +:+ ":" +:+ PyStr.rstrip line.
Proof.
  unfold file_hits. destruct (files w !! filepath) as [[|text bad]|];
    try contradiction.
  intros H. apply in_map_iff in H as ([n line] & <- & H).
  apply filter_In in H as [Hin Hs]. now exists n, line, text, bad.
Qed.


(** * The agent loop *)

Lemma wp_bind {S A B} (m : M S A) (k : A -> M S B)
    (Q : result B -> S -> Prop) (s : S) :
  wp m (fun r s1 => match r with
                    | Ret a => wp (k a) Q s1
                    | Raise e => Q (Raise e) s1
                    | Hang => Q Hang s1
                    end) s ->
  wp (bind m k) Q s.
Proof.
  unfold wp, bind. destruct (m s) as [[a|e|] s1]; cbn; auto.
Qed.

Lemma wp_lift {S A} (r : result A) (Q : result A -> S -> Prop) (s : S) :
  Q r s -> wp (lift r) Q s.
Proof. exact (fun H => H). Qed.

Lemma wp_mono {S A} (m : M S A) (Q Q' : result A -> S -> Prop) (s : S) :
  (forall r s', Q r s' -> Q' r s') -> wp m Q s -> wp m Q' s.
Proof. unfold wp. auto. Qed.

(** Whatever runs on the host leaves the conversation and the transport
    alone. *)
Lemma wp_in_host {A} (m : M world A) (Q : result A -> session -> Prop) (s : session) :
  (forall r w', Q r (Session w' (messages s) (net s))) -> wp (in_host m) Q s.
Proof.
  unfold wp, in_host. intros H. destruct (m (host s)) as [r w']. apply H.
Qed.

Lemma same_talk_refl (s : session) : same_talk s s.
Proof. split; reflexivity. Qed.

Lemma same_talk_host (s : session) (w' : world) :
  same_talk s (Session w' (messages s) (net s)).
Proof. split; reflexivity. Qed.

#[local] Hint Resolve same_talk_refl same_talk_host : core.

(** One block: the conversation is not touched, and the results grow by
    at most one block, the answer to this tool use. *)
Lemma dispatch_block_spec (block : json) (tool_results : list json) (s : session) :
  wp (dispatch_block block tool_results)
     (fun r s' =>
        same_talk s s' /\
        forall results, r = Ret results ->
          results = tool_results \/
          exists id text,
            is_block "tool_use" block = true /\
            getitem block "id" = Ret id /\
            results = tool_results ++ [tool_result_block id text]) s.
Proof.
  unfold dispatch_block, is_block.
  apply wp_bind, wp_lift.
  destruct (getitem block "type") as [type| |]; [| split; [auto | discriminate] ..].
  apply wp_bind.
  apply (wp_mono _ (fun r s' => same_talk s s')).
  2:{ destruct (eq_str type "text"); [| apply same_talk_refl].
      apply wp_bind, wp_lift.
      destruct (getitem block "text") as [[]| |]; try apply same_talk_refl.
      apply wp_in_host. auto. }
  intros [[]| |] s1 [Hm Hn]; [| split; [split; assumption | discriminate] ..].
  destruct (eq_str type "tool_use").
  2:{ split; [split; assumption |]. intros results H. injection H as <-. now left. }
  apply wp_bind, wp_lift.
  destruct (getitem block "name") as [tool_name| |];
    [| split; [split; assumption | discriminate] ..].
  apply wp_bind, wp_lift.
  destruct (getitem block "input") as [tool_args| |];
    [| split; [split; assumption | discriminate] ..].
  apply wp_bind, wp_lift.
  destruct (values tool_args) as [vals| |];
    [| split; [split; assumption | discriminate] ..].
  apply wp_bind, wp_lift.
  destruct (getitem0 (JArr vals)) as [first| |];
    [| split; [split; assumption | discriminate] ..].
  destruct tool_name; try (split; [split; assumption | discriminate]).
  apply wp_bind, wp_in_host. intros [[]| |] w1;
    [| split; [split; assumption | discriminate] ..].
  apply wp_bind, wp_in_host. intros [text| |] w2;
    [| split; [split; assumption | discriminate] ..].
  apply wp_bind, wp_in_host. intros [[]| |] w3;
    [| split; [split; assumption | discriminate] ..].
  apply wp_bind, wp_lift. cbn [messages net].
  destruct (getitem block "id") as [id| |];
    [| split; [split; assumption | discriminate] ..].
  split; [split; assumption |].
  intros results H. injection H as <-. right. now exists id, text.
Qed.

Lemma answers_cons (block : json) (blocks results : list json) :
  answers blocks results -> answers (block :: blocks) results.
Proof.
  unfold answers. intros H0. eapply Forall_impl; [exact H0 |]. clear H0.
  intros r (b & id & text & Hin & H). exists b, id, text.
  split; [now right | exact H].
Qed.

(** The loop over the blocks of a reply: the conversation is not touched
    and every result answers a tool use among the blocks. *)
Lemma dispatch_spec (blocks : list json) :
  forall (tool_results : list json) (s : session),
    wp (dispatch blocks tool_results)
       (fun r s' =>
          same_talk s s' /\
          forall results, r = Ret results ->
            exists extra, results = tool_results ++ extra /\ answers blocks extra) s.
Proof.
  induction blocks as [|block rest IH]; intros acc s; cbn [dispatch].
  - split; [auto |]. intros results H. injection H as <-.
    exists []. split; [now rewrite app_nil_r | constructor].
  - apply wp_bind.
    pose proof (dispatch_block_spec block acc s) as Hb.
    revert Hb. apply wp_mono. intros [acc'| |] s1 [[Hm Hn] Hr];
      [| split; [split; assumption | discriminate] ..].
    specialize (IH acc' s1). revert IH. apply wp_mono.
    intros r s2 [[Hm2 Hn2] Hr2]. split; [split; congruence |].
    intros results ->. destruct (Hr2 results eq_refl) as (extra & -> & Hextra).
    destruct (Hr acc' eq_refl) as [-> | (id & text & Hb & Hid & ->)].
    + exists extra. split; [reflexivity | now apply answers_cons].
    + exists (tool_result_block id text :: extra). split.
      * now rewrite <- app_assoc.
      * constructor; [| now apply answers_cons].
        exists block, id, text. split; [now left | auto].
Qed.

(** Only a list of blocks gets answers: a loop over a text or over the keys
    of an object fails at its first item. *)
Lemma answers_of_list (content : json) (blocks results : list json) :
  iterate content = Ret blocks -> answers blocks results -> results <> [] ->
  content = JArr blocks.
Proof.
  intros Hit Hans Hne. destruct results as [|r results]; [contradiction |].
  apply Forall_inv in Hans as (block & id & text & Hin & Hb & _).
  destruct content; cbn in Hit; try discriminate; injection Hit as <-.
  - unfold chars in Hin. apply in_map_iff in Hin as (c & <- & _). discriminate.
  - reflexivity.
  - apply in_map_iff in Hin as (p & <- & _). discriminate.
Qed.

(** ** What the Gemini decoder returns *)

Lemma gemini_blocks_decoded (parts : list json) :
  forall content_blocks out,
    Forall decoded_block content_blocks ->
    gemini_blocks parts content_blocks = Ret out ->
    Forall decoded_block out.
Proof.
  induction parts as [|part rest IH]; intros acc out Hacc; cbn [gemini_blocks].
  - intros H. now injection H as <-.
  - unfold rbind.
    destruct (has_key "text" part) as [[|]| |]; try discriminate.
    + destruct (getitem part "text") as [text| |]; try discriminate.
      apply IH. apply Forall_app. split; [assumption |].
      constructor; [| constructor]. left. now exists text.
    + destruct (has_key "functionCall" part) as [[|]| |]; try discriminate;
        [| now apply IH].
      destruct (getitem part "functionCall") as [fc| |]; try discriminate.
      destruct (get_default fc "name" (JStr "unknown")) as [id_name| |];
        try discriminate.
      destruct (concat id_name (JStr "_call")) as [id| |] eqn:C; try discriminate.
      destruct (getitem fc "name") as [name| |]; try discriminate.
      destruct (get_default fc "args" (JObj [])) as [input| |]; try discriminate.
      apply IH. apply Forall_app. split; [assumption |].
      constructor; [| constructor]. right.
      destruct id_name; try discriminate. injection C as <-.
      now exists s, name, input.
Qed.

Lemma convert_gemini_response_decoded (gemini_response out : json) :
  convert_gemini_response gemini_response = Ret out ->
  exists blocks, out = JObj [("content", JArr blocks)] /\ Forall decoded_block blocks.
Proof.
  assert (Hnotice : forall text,
             Forall decoded_block [text_block (JStr text)]).
  { intros text. constructor; [| constructor]. left. now eexists. }
  unfold convert_gemini_response, rbind.
  destruct (has_key "candidates" gemini_response) as [present| |]; try discriminate.
  destruct (if negb present then Ret true
            else match getitem gemini_response "candidates" with
                 | Ret a => Ret (negb (truthy a))
                 | Raise e => Raise e
                 | Hang => Hang
                 end) as [[|]| |]; try discriminate.
  { intros H. injection H as <-. eauto. }
  destruct (getitem gemini_response "candidates") as [candidates| |]; try discriminate.
  destruct (getitem0 candidates) as [candidate| |]; try discriminate.
  destruct (has_key "content" candidate) as [[|]| |]; try discriminate; cbn [negb].
  2:{ intros H. injection H as <-. eauto. }
  destruct (getitem candidate "content") as [content| |]; try discriminate.
  destruct (get_default content "parts" (JArr [])) as [parts| |]; try discriminate.
  destruct (iterate parts) as [items| |]; try discriminate.
  destruct (gemini_blocks items []) as [content_blocks| |] eqn:G; try discriminate.
  intros H. injection H as <-. exists content_blocks. split; [reflexivity |].
  now apply (gemini_blocks_decoded items [] content_blocks).
Qed.

(** ** The provider call *)

Lemma urlopen_spec (payload : json) (s : session) :
  wp (urlopen payload)
     (fun r s' =>
        messages s' = messages s /\
        match net s with
        | [] => r = Hang /\ net s' = []
        | outcome :: rest => r = outcome /\ net s' = rest
        end) s.
Proof.
  unfold wp, urlopen, bind, say, in_host, emit. cbn.
  destruct (net s) as [|outcome rest]; cbn; auto.
Qed.

(** A call leaves the conversation as it is, whatever its outcome; a call
    that returns took one outcome from the transport; with Gemini a
    response is a list of decoded blocks. *)
Lemma call_api_spec (cfg : config) (msgs : list json) (system_prompt : string)
    (s : session) :
  wp (call_api cfg msgs system_prompt)
     (fun r s' =>
        messages s' = messages s /\
        length (net s') <= length (net s) /\
        forall response, r = Ret response ->
          length (net s') < length (net s) /\
          (is_gemini (PROVIDER cfg) = true ->
           exists blocks, response = JObj [("content", JArr blocks)] /\
                          Forall decoded_block blocks)) s.
Proof.
  assert (Hopen : forall payload s0,
             wp (urlopen payload)
                (fun r s' => messages s' = messages s0 /\
                             length (net s') <= length (net s0) /\
                             forall response, r = Ret response ->
                                              length (net s') < length (net s0)) s0).
  { intros payload s0. pose proof (urlopen_spec payload s0) as H. revert H.
    apply wp_mono. intros r s' [Hm Hn]. split; [assumption |].
    destruct (net s0) as [|outcome rest]; destruct Hn as [-> ->]; cbn.
    - split; [lia | discriminate].
    - split; [lia |]. intros; lia. }
  unfold call_api. destruct (is_gemini (PROVIDER cfg)) eqn:G.
  - apply wp_bind, wp_lift.
    destruct (convert_messages_to_gemini msgs system_prompt) as [contents| |];
      [| split; [reflexivity | split; [lia | discriminate]] ..].
    apply wp_bind. eapply wp_mono; [| apply Hopen].
    intros [gemini_response| |] s' (Hm & Hle & Hlt);
      [| split; [assumption | split; [assumption | discriminate]] ..].
    apply wp_lift. split; [assumption | split; [assumption |]].
    intros response C. split; [now apply Hlt with gemini_response |].
    intros _. now apply convert_gemini_response_decoded in C.
  - eapply wp_mono; [| apply Hopen].
    intros r s' (Hm & Hle & Hlt). split; [assumption | split; [assumption |]].
    intros response ->. split; [now apply Hlt with response | discriminate].
Qed.

(** ** One round, the loop and the REPL *)

(** One round either appends the assistant turn with the blocks it got, or
    fails and leaves the conversation as it found it. *)
Lemma round_spec (cfg : config) (system_prompt : string) (s : session) :
  wp (round cfg system_prompt)
     (fun r s' =>
        length (net s') <= length (net s) /\
        match r with
        | Ret results =>
            exists content blocks,
              messages s' = messages s ++ [turn "assistant" content] /\
              assistant_content (PROVIDER cfg) content /\
              iterate content = Ret blocks /\
              answers blocks results /\
              length (net s') < length (net s)
        | _ => messages s' = messages s
        end) s.
Proof.
  unfold round. apply wp_bind. unfold wp at 1, get_messages. cbn [fst snd].
  apply wp_bind. eapply wp_mono; [| apply call_api_spec].
  intros [response| |] s1 (Hm & Hle & Hr); [| split; assumption ..].
  destruct (Hr response eq_refl) as [Hlt Hgem].
  apply wp_bind, wp_lift.
  destruct (get_default response "content" (JArr [])) as [content| |] eqn:C;
    [| split; assumption ..].
  apply wp_bind, wp_lift.
  destruct (iterate content) as [blocks| |] eqn:I; [| split; assumption ..].
  apply wp_bind. eapply wp_mono; [| apply dispatch_spec].
  intros [results| |] s2 [[Hm2 Hn2] Hres]; rewrite ?Hn2, ?Hm2;
    [| split; assumption ..].
  unfold wp, bind, append_turn, ret. cbn. rewrite Hn2, Hm2, Hm.
  split; [assumption |]. exists content, blocks.
  destruct (Hres results eq_refl) as (extra & -> & Hextra).
  repeat split; try assumption.
  intros G. destruct (Hgem G) as (bs & -> & Hbs). cbn in C.
  injection C as <-. now exists bs.
Qed.

Lemma conversation_grows (cfg : config) (system_prompt : string) (fuel : nat) :
  forall s,
    wp (agent_loop cfg system_prompt fuel)
       (fun r s' =>
          (conversation (PROVIDER cfg) (messages s) ->
           conversation (PROVIDER cfg) (messages s')) /\
          (exists later, messages s' = messages s ++ later) /\
          length (net s') <= length (net s)) s.
Proof.
  induction fuel as [|fuel IH]; intros s; cbn [agent_loop].
  - unfold wp, hang. cbn. repeat split; auto. exists []. now rewrite app_nil_r.
  - apply wp_bind. eapply wp_mono; [| apply round_spec].
    intros [results| |] s1 [Hle Hr].
    2,3: rewrite Hr; repeat split; auto; exists []; now rewrite app_nil_r.
    destruct Hr as (content & blocks & Hm & Ha & Hit & Hans & Hlt).
    destruct results as [|r results].
    + unfold wp, ret. cbn. rewrite Hm. repeat split; eauto.
      intros Hconv. now apply conv_reply.
    + assert (content = JArr blocks) as -> by
          (now apply (answers_of_list content blocks (r :: results))).
      apply wp_bind. unfold wp at 1, append_turn. cbn [fst snd].
      eapply wp_mono; [| apply IH].
      cbn [messages net]. intros r' s2 (Hc2 & (later & Hl2) & Hle2).
      repeat split; [| | lia].
      * intros Hconv. apply Hc2. rewrite Hm, <- app_assoc. cbn [app].
        now apply conv_results.
      * rewrite Hl2, Hm, <- !app_assoc. eauto.
Qed.

(** One prompt: the user turn is appended, and whatever happens next the
    conversation only grows behind it. *)
Lemma prompt_body_spec (cfg : config) (user_input : string) (s : session) :
  wp (prompt_body cfg user_input)
     (fun r s' =>
        (conversation (PROVIDER cfg) (messages s) -> user_input <> "" ->
         conversation (PROVIDER cfg) (messages s')) /\
        exists later,
          messages s' = messages s ++ [turn "user" (JStr user_input)] ++ later) s.
Proof.
  unfold prompt_body. apply wp_bind.
  unfold wp at 1, append_turn. cbn [fst snd].
  match goal with |- wp _ _ ?s1 => set (s1' := s1) end.
  change (wp (agent_loop cfg (make_system_prompt cfg) (S (length (net s1'))))
             (fun r s' =>
                (conversation (PROVIDER cfg) (messages s) -> user_input <> "" ->
                 conversation (PROVIDER cfg) (messages s')) /\
                exists later,
                  messages s' = messages s ++ [turn "user" (JStr user_input)] ++ later)
             s1').
  eapply wp_mono; [| apply conversation_grows].
  intros r s' (Hc & (later & Hl) & _). split.
  - intros Hconv Hne. apply Hc. subst s1'. cbn. now apply conv_prompt.
  - exists later. rewrite Hl. subst s1'. cbn. now rewrite <- app_assoc.
Qed.

Lemma repl_keeps_conversation (cfg : config) (inputs : list user_event) :
  forall s,
    conversation (PROVIDER cfg) (messages s) ->
    wp (repl cfg inputs) (fun _ s' => conversation (PROVIDER cfg) (messages s')) s.
Proof.
  induction inputs as [|[raw|] rest IH]; intros s Hconv; cbn [repl];
    try exact Hconv.
  destruct (String.eqb_spec (PyStr.strip raw) ""); [now apply IH |].
  destruct (String.eqb (PyStr.strip raw) "/q" || String.eqb (PyStr.strip raw) "exit");
    [exact Hconv |].
  destruct (String.eqb (PyStr.strip raw) "/c").
  { apply wp_bind. unfold wp at 1, set_messages. cbn [fst snd].
    apply wp_bind, wp_in_host. intros [[]| |] w'; cbn [messages];
      try apply conv_empty.
    apply IH. apply conv_empty. }
  destruct (String.eqb (PyStr.strip raw) "/i").
  { apply wp_bind, wp_in_host. intros [[]| |] w'; cbn [messages];
      try exact Hconv.
    now apply IH. }
  pose proof (prompt_body_spec cfg (PyStr.strip raw) s) as Hp.
  unfold wp in *. destruct (prompt_body cfg (PyStr.strip raw) s) as [[[]|e|] s1].
  - cbn in Hp. destruct Hp as [Hc _]. specialize (Hc Hconv n). now apply IH.
  - cbn in Hp. destruct Hp as [Hc _]. specialize (Hc Hconv n).
    destruct (breaks e); [exact Hc |].
    apply (wp_bind (say (EvError (exn_str e))) (fun _ => repl cfg rest)
                   (fun _ s' => conversation (PROVIDER cfg) (messages s'))).
    apply wp_in_host. intros [[]| |] w'; cbn [messages]; try exact Hc.
    now apply IH.
  - cbn in Hp. destruct Hp as [Hc _]. now apply Hc.
Qed.

(** Every run of [main] ends, or stops, with a conversation built turn by
    turn as [conversation] describes. *)
Lemma main_conversation (cfg : config) (w : world) (network : list (result json))
    (inputs : list user_event) :
  conversation (PROVIDER cfg) (messages (snd (main cfg w network inputs))).
Proof.
  unfold main. apply (repl_keeps_conversation cfg inputs (Session w [] network)).
  apply conv_empty.
Qed.

(** The fuel of the loop is never what stops it: every round that goes on
    has taken an outcome from the transport, so with more fuel than
    outcomes left the run does not depend on the fuel. *)
Lemma agent_loop_fuel (cfg : config) (system_prompt : string) (fuel : nat) :
  forall fuel' s,
    length (net s) < fuel -> length (net s) < fuel' ->
    agent_loop cfg system_prompt fuel s = agent_loop cfg system_prompt fuel' s.
Proof.
  induction fuel as [|fuel IH]; intros fuel' s H H'; [lia |].
  destruct fuel' as [|fuel']; [lia |]. cbn [agent_loop].
  pose proof (round_spec cfg system_prompt s) as Hr.
  unfold wp in Hr. unfold bind at 1 3.
  destruct (round cfg system_prompt s) as [[results| |] s1]; try reflexivity.
  destruct results as [|r results]; [reflexivity |].
  cbn [fst snd] in Hr. destruct Hr as (_ & _ & _ & _ & _ & _ & _ & Hlt).
  unfold bind, append_turn. apply IH; cbn [net]; lia.
Qed.

(** * Invariants of the conversation *)

Lemma before_snoc (msgs : list json) (t : json) (i : nat) :
  i < length msgs -> before (msgs ++ [t]) i = before msgs i.
Proof.
  destruct i as [|j]; cbn; [reflexivity |]. intros H.
  apply lookup_app_l. lia.
Qed.

Lemma before_end (msgs : list json) (t : json) :
  before (msgs ++ [t]) (length msgs) = last msgs.
Proof.
  rewrite last_lookup. destruct (length msgs) as [|n] eqn:L; cbn.
  - now destruct msgs.
  - apply lookup_app_l. lia.
Qed.

Lemma each_turn_nil (holds : option json -> json -> Prop) : each_turn holds [].
Proof. intros i t H. discriminate. Qed.

Lemma each_turn_snoc (holds : option json -> json -> Prop)
    (msgs : list json) (t : json) :
  each_turn holds msgs -> holds (last msgs) t -> each_turn holds (msgs ++ [t]).
Proof.
  intros Hall Ht i x Hx.
  destruct (Nat.lt_ge_cases i (length msgs)) as [Hlt | Hge].
  - rewrite before_snoc by assumption. apply Hall.
    now rewrite lookup_app_l in Hx.
  - pose proof (lookup_lt_Some _ _ _ Hx) as Hi. rewrite length_app in Hi.
    cbn in Hi. assert (i = length msgs) as -> by lia.
    rewrite before_end. rewrite lookup_app_r, Nat.sub_diag in Hx by lia.
    injection Hx as <-. exact Ht.
Qed.

Lemma decoded_block_kind (block : json) :
  decoded_block block ->
  is_block "tool_result" block = false /\
  (is_block "tool_use" block = true ->
   exists s, getitem block "id" = Ret (JStr s) /\ s <> "").
Proof.
  intros [(text & ->) | (n & name & input & ->)]; split; try reflexivity.
  - discriminate.
  - intros _. exists (n +:+ "_call"). split; [reflexivity |].
    intros H. apply append_eq_nil in H as [_ H]. discriminate.
Qed.

Lemma decoded_turn (role : string) (blocks : list json) :
  Forall decoded_block blocks ->
  tool_result_ids (turn role (JArr blocks)) = [] /\
  forall id, In id (tool_use_ids (turn role (JArr blocks))) ->
             exists s, id = JStr s /\ s <> "".
Proof.
  unfold tool_result_ids, tool_use_ids. cbn. intros Hall. split.
  - induction Hall as [|b bs Hb _ IH]; cbn; [reflexivity |].
    rewrite IH. now rewrite (proj1 (decoded_block_kind b Hb)).
  - intros id Hid. apply in_flat_map in Hid as (b & Hb & Hid).
    rewrite Forall_forall in Hall. apply list_elem_of_In, Hall in Hb.
    destruct (is_block "tool_use" b) eqn:K; [| contradiction].
    destruct (proj2 (decoded_block_kind b Hb) K) as (s & Hs & Hne).
    rewrite Hs in Hid. destruct Hid as [<- | []]. now exists s.
Qed.

Lemma answers_ids (blocks results : list json) (role : string) :
  answers blocks results ->
  tool_use_ids (turn role (JArr results)) = [] /\
  forall id, In id (tool_result_ids (turn role (JArr results))) ->
             In id (tool_use_ids (turn "assistant" (JArr blocks))).
Proof.
  unfold tool_result_ids, tool_use_ids. cbn. intros Hans. split.
  - induction Hans as [|r rs (b & id & text & _ & _ & _ & ->) _ IH]; cbn;
      [reflexivity | exact IH].
  - intros id Hid. apply in_flat_map in Hid as (r & Hr & Hid).
    unfold answers in Hans. rewrite Forall_forall in Hans.
    apply list_elem_of_In, Hans in Hr as (b & id' & text & Hb & Hk & Hi & ->).
    cbn in Hid. destruct Hid as [<- | []].
    apply in_flat_map. exists b. split; [assumption |].
    rewrite Hk, Hi. now left.
Qed.

(** Every turn of a conversation the loop builds is as [turn_ok] says. *)
Lemma conversation_turns (P : provider) (msgs : list json) :
  conversation P msgs -> each_turn (turn_ok P) msgs.
Proof.
  assert (Hassistant : forall prev content,
             assistant_content P content ->
             turn_ok P prev (turn "assistant" content)).
  { intros prev content Hc. split; [| split]; try discriminate.
    intros G. destruct (Hc G) as (blocks & -> & Hd).
    destruct (decoded_turn "assistant" blocks Hd) as [Hr Hu].
    split; [| exact Hu]. intros id Hid. rewrite Hr in Hid. contradiction. }
  induction 1 as [| msgs text Hc IH Hne | msgs content Hc IH Ha
                 | msgs blocks results Hc IH Ha Hne Hans].
  - apply each_turn_nil.
  - apply each_turn_snoc; [assumption |]. split; [| split].
    + intros id _ [].
    + intros _. split; intros id [].
    + intros _. split; cbn; [discriminate |].
      intros H. injection H as H. contradiction.
  - apply each_turn_snoc; [assumption |]. now apply Hassistant.
  - change (msgs ++ [turn "assistant" (JArr blocks); turn "user" (JArr results)])
      with (msgs ++ [turn "assistant" (JArr blocks)] ++ [turn "user" (JArr results)]).
    rewrite app_assoc. apply each_turn_snoc.
    + apply each_turn_snoc; [assumption |]. now apply Hassistant.
    + rewrite last_snoc.
      destruct (answers_ids blocks results "user" Hans) as [Hu Hr].
      split; [| split].
      * intros id _ Hid. exists (turn "assistant" (JArr blocks)).
        split; [reflexivity |]. split; [reflexivity |]. now apply Hr.
      * intros _. split; [reflexivity |]. intros id Hid. rewrite Hu in Hid.
        contradiction.
      * intros _. split; cbn; [| discriminate].
        intros H. injection H as H. contradiction.
Qed.

(** * Tool uses and tool results in the conversation *)

(** C4, as stated, fails with a Style-A provider: the blocks of a reply are
    recorded as they came, and a tool use with an empty id stays empty. *)
Lemma empty_tool_use_id_is_recorded :
  ~ (forall (cfg : config) (w : world) (network : list (result json))
            (inputs : list user_event),
       let msgs := messages (snd (main cfg w network inputs)) in
       results_follow_calls msgs /\ tool_use_ids_not_empty msgs).
Proof.
  intros H.
  destruct (H anthropic_cfg demo_world nameless_call_net [Line "read a.txt"])
    as [_ Hids].
  destruct (Hids (turn "assistant"
                       (JArr [tool_use_block (JStr "") "read"
                                             (JObj [("path", JStr "a.txt")])]))
                 (JStr ""))
    as (s & Hs & Hne).
  - vm_compute. right. left. reflexivity.
  - left. reflexivity.
  - injection Hs as <-. now apply Hne.
Qed.

(** C4, amended.  In every conversation the loop produces, every tool
    result of a user turn carries the id of a tool use of the assistant
    turn just before it.  With the Gemini provider, moreover, tool results
    only occur in such user turns, and every tool use has a non-empty id.
    (With the other providers the blocks of an assistant turn, ids
    included, are recorded as the provider sent them.) *)
Theorem tool_results_answer_tool_uses
    (cfg : config) (w : world) (network : list (result json))
    (inputs : list user_event) :
  let msgs := messages (snd (main cfg w network inputs)) in
  user_results_follow_calls msgs /\
  (PROVIDER cfg = Gemini ->
   results_follow_calls msgs /\ tool_use_ids_not_empty msgs).
Proof.
  intros msgs.
  pose proof (conversation_turns _ _ (main_conversation cfg w network inputs))
    as Hturns.
  fold msgs in Hturns.
  assert (Hprev : forall i p, before msgs i = Some p ->
                              exists j, i = S j /\ msgs !! j = Some p).
  { intros [|j] p H; [discriminate | now exists j]. }
  split.
  - intros i t id Hi Hrole Hid.
    destruct (Hturns i t Hi) as (Hfollow & _ & _).
    destruct (Hfollow id Hrole Hid) as (p & Hp & Hr & Hin).
    destruct (Hprev i p Hp) as (j & -> & Hj). now exists j, p.
  - intros G. assert (Hg : is_gemini (PROVIDER cfg) = true) by now rewrite G.
    split.
    + intros i t id Hi Hid.
      destruct (Hturns i t Hi) as (Hfollow & Hgem & _).
      destruct (Hgem Hg) as [Hrole _]. specialize (Hrole id Hid).
      split; [assumption |].
      destruct (Hfollow id Hrole Hid) as (p & Hp & Hr & Hin).
      destruct (Hprev i p Hp) as (j & -> & Hj). now exists j, p.
    + intros t id Ht Hid.
      apply list_elem_of_In, list_elem_of_lookup in Ht as (i & Hi).
      destruct (Hturns i t Hi) as (_ & Hgem & _).
      destruct (Hgem Hg) as [_ Hids]. now apply Hids.
Qed.

Lemma tool_results_answer_tool_uses_witness :
  let msgs := messages (snd (main gemini_cfg demo_world glob_call_net
                                  [Line "list files"])) in
  length msgs = 4 /\ results_follow_calls msgs /\ tool_use_ids_not_empty msgs.
Proof.
  split; [reflexivity |].
  apply (tool_results_answer_tool_uses gemini_cfg demo_world glob_call_net
                                       [Line "list files"]).
  reflexivity.
Defined.

(** * Transport failures *)

Lemma repl_prompt (cfg : config) (raw : string) (rest : list user_event)
    (s : session) :
  is_prompt (PyStr.strip raw) = true ->
  repl cfg (Line raw :: rest) s
  = match prompt_body cfg (PyStr.strip raw) s with
    | (Ret _, s') => repl cfg rest s'
    | (Raise e, s') =>
        if breaks e then (Ret tt, s')
        else repl cfg rest
                  (Session (printed (host s') (EvError (exn_str e)))
                           (messages s') (net s'))
    | (Hang, s') => (Hang, s')
    end.
Proof.
  unfold is_prompt. intros H.
  apply andb_true_iff in H as [H Hi]. apply andb_true_iff in H as [H Hc].
  apply andb_true_iff in H as [He Hq].
  apply negb_true_iff in He, Hq, Hc, Hi.
  cbn [repl]. rewrite He, Hq, Hc, Hi.
  destruct (prompt_body cfg (PyStr.strip raw) s) as [[[]|e|] s']; reflexivity.
Qed.



(** * Empty turns *)

(** C8, as stated, fails: a reply without blocks is appended as an
    assistant turn with an empty content list. *)
Lemma empty_assistant_turn_is_recorded :
  ~ (forall (cfg : config) (w : world) (network : list (result json))
            (inputs : list user_event),
       Forall (fun t => getitem t "content" <> Ret (JArr []))
              (messages (snd (main cfg w network inputs)))).
Proof.
  intros H.
  specialize (H gemini_cfg demo_world [Ret (gemini_reply [])] [Line "hi"]).
  vm_compute in H. apply Forall_cons_1 in H as [_ H].
  apply Forall_cons_1 in H as [H _]. now apply H.
Qed.

Lemma gemini_parts_grow (items : list json) :
  forall parts out, gemini_parts items parts = Ret out ->
                    exists extra, out = parts ++ extra.
Proof.
  induction items as [|item rest IH]; intros parts out; cbn [gemini_parts].
  - intros H. injection H as <-. exists []. now rewrite app_nil_r.
  - unfold rbind. destruct (getitem item "type") as [type| |]; try discriminate.
    destruct (eq_str type "text").
    { destruct (getitem item "text"); try discriminate.
      intros H. apply IH in H as (extra & ->). rewrite <- app_assoc. eauto. }
    destruct (eq_str type "tool_use").
    { destruct (getitem item "name"); try discriminate.
      destruct (getitem item "input"); try discriminate.
      intros H. apply IH in H as (extra & ->). rewrite <- app_assoc. eauto. }
    destruct (eq_str type "tool_result"); [| apply IH].
    destruct (getitem item "content"); try discriminate.
    intros H. apply IH in H as (extra & ->). rewrite <- app_assoc. eauto.
Qed.

(** The Gemini payload holds no entry without parts. *)
Lemma gemini_contents_have_parts (msgs : list json) (system_prompt : string) :
  forall contents,
    convert_messages_to_gemini msgs system_prompt = Ret contents ->
    Forall has_parts contents.
Proof.
  induction msgs as [|msg rest IH]; intros contents; cbn [convert_messages_to_gemini].
  - intros H. injection H as <-. constructor.
  - unfold rbind. destruct (getitem msg "role") as [r| |]; try discriminate.
    destruct (getitem msg "content") as [content| |]; try discriminate.
    assert (Hentry : forall entry,
               match content with
               | JStr _ => Ret [JObj [("role", JStr (if eq_str r "user" then "user" else "model"));
                                      ("parts", JArr [JObj [("text", content)]])]]
               | JArr items =>
                   match gemini_parts items [] with
                   | Ret [] => Ret []
                   | Ret parts => Ret [JObj [("role", JStr (if eq_str r "user" then "user" else "model"));
                                             ("parts", JArr parts)]]
                   | Raise e => Raise e
                   | Hang => Hang
                   end
               | _ => Ret []
               end = Ret entry -> Forall has_parts entry).
    { intros entry H.
      destruct content; try solve [injection H as <-; constructor].
      - injection H as <-. constructor; [| constructor].
        eexists _, _. split; [reflexivity | discriminate].
      - destruct (gemini_parts items []) as [[|p parts]| |]; try discriminate;
          injection H as <-; [constructor |].
        constructor; [| constructor].
        eexists _, _. split; [reflexivity | discriminate]. }
    match goal with
    | |- match ?x with _ => _ end = _ -> _ =>
        destruct x as [entry| |] eqn:E; try discriminate
    end.
    destruct (convert_messages_to_gemini rest system_prompt) as [tail| |];
      try discriminate.
    intros H. injection H as <-. apply Forall_app. split; [| now apply IH].
    apply Hentry. rewrite <- E. destruct content; reflexivity.
Qed.

(** C8, amended.  Every user turn of a conversation the loop produces (a
    prompt, or the tool results of a round) has content that is not empty;
    an assistant turn is recorded with the blocks the provider returned,
    none included; the Gemini encoding leaves every turn without parts out
    of the payload, and the other providers are sent the conversation as it
    is recorded. *)
Theorem user_turns_are_not_empty
    (cfg : config) (w : world) (network : list (result json))
    (inputs : list user_event) :
  (forall t, In t (messages (snd (main cfg w network inputs))) ->
             role_of t = Some "user" -> content_not_empty t) /\
  (forall msgs system_prompt contents,
     convert_messages_to_gemini msgs system_prompt = Ret contents ->
     Forall has_parts contents) /\
  (forall msgs system_prompt s,
     is_gemini (PROVIDER cfg) = false ->
     call_api cfg msgs system_prompt s
     = urlopen (JObj [("model", JStr (MODEL cfg));
                      ("max_tokens", JInt 8192);
                      ("system", JStr system_prompt);
                      ("messages", JArr msgs);
                      ("tools", JArr (make_schema (PROVIDER cfg)))]) s).
Proof.
  split; [| split].
  - intros t Ht Hrole.
    apply list_elem_of_In, list_elem_of_lookup in Ht as (i & Hi).
    pose proof (conversation_turns _ _ (main_conversation cfg w network inputs) i t Hi)
      as (_ & _ & H).
    now apply H.
  - intros msgs system_prompt contents. apply gemini_contents_have_parts.
  - intros msgs system_prompt s G. unfold call_api. now rewrite G.
Qed.

Lemma user_turns_are_not_empty_witness :
  content_not_empty (turn "user" (JStr "hi")) /\
  Forall has_parts
         [JObj [("role", JStr "user"); ("parts", JArr [JObj [("text", JStr "hi")]])]].
Proof.
  split.
  - apply (proj1 (user_turns_are_not_empty gemini_cfg demo_world
                    [Ret (gemini_reply [])] [Line "hi"])).
    + left. reflexivity.
    + reflexivity.
  - apply (proj1 (proj2 (user_turns_are_not_empty gemini_cfg demo_world
                           [Ret (gemini_reply [])] [Line "hi"]))
                 [turn "user" (JStr "hi"); turn "assistant" (JArr [])]
                 "prompt").
    reflexivity.
Defined.

(** * The theorems at concrete inputs *)

(** The failures the registry turns into text: a missing argument, a file
    that is not there, an unknown tool, a pattern that does not compile. *)
Example run_tool_missing_file :
  fst (run_tool "read" (JObj [("path", JStr "b.txt")]) demo_world)
  = Ret "error: [Errno 2] No such file or directory: 'b.txt'".
Proof. reflexivity. Qed.

Example run_tool_unknown_tool :
  fst (run_tool "rm" (JObj [("path", JStr "a.txt")]) demo_world) = Ret "error: 'rm'".
Proof. reflexivity. Qed.

Example run_tool_bad_pattern :
  fst (run_tool "grep" (JObj [("pat", JStr "(")])
                (World ∅ 0 [] (fun _ => None) (fun _ _ => []) (fun _ _ => 0%Z)
                       (fun _ => Some "missing ), unterminated subpattern at position 0")
                       (fun _ _ => false) (fun _ _ => inl "no shell")))
  = Ret "error: missing ), unterminated subpattern at position 0".
Proof. reflexivity. Qed.

(** A write without content: the file is already truncated when the lookup
    of the content fails. *)
Example run_tool_write_without_content :
  let r := run_tool "write" (JObj [("path", JStr "a.txt")]) demo_world in
  fst r = Ret "error: 'content'" /\ files (snd r) !! "a.txt" = Some (File "" None).
Proof. split; reflexivity. Qed.

(** A process that prints one line at once and then works for 100
    seconds: the tool returns the line after 100 seconds. *)
Example bash_long_run :
  run_process (Process [(0, "start" +:+ newline)] (Some 100) (Some 100) ∅)
  = (Some (BashRun 100 false "start"), [EvBashLine "start"]).
Proof. reflexivity. Qed.

(** Two calls of the same function in one Gemini reply get the same id. *)
Example gemini_same_name_same_id :
  convert_gemini_response
    (gemini_reply [function_call [("name", JStr "read"); ("args", JObj [("path", JStr "a")])];
                   function_call [("name", JStr "read"); ("args", JObj [("path", JStr "b")])]])
  = Ret (reply [tool_use_block (JStr "read_call") "read" (JObj [("path", JStr "a")]);
                tool_use_block (JStr "read_call") "read" (JObj [("path", JStr "b")])]).
Proof. reflexivity. Qed.



(** An overlapping text: [aa] is counted once in [aaa], and the leftmost
    occurrence is replaced. *)
Example edit_overlapping :
  let w := bare_world (<["f" := File "aaa" None]> ∅) in
  let r := edit (JObj [("path", JStr "f"); ("old", JStr "aa"); ("new", JStr "b")]) w in
  fst r = Ret "ok" /\ files (snd r) !! "f" = Some (File "ba" None).
Proof. split; reflexivity. Qed.


(** * More about the tools *)

(** ** Reading *)

Lemma join_empty_sep (x : string) (l : list string) :
  PyStr.join "" (x :: l) = x +:+ PyStr.join "" l.
Proof. destruct l; cbn; [now rewrite append_nil_r | reflexivity]. Qed.

(** The lines of a text, one after the other, are the text. *)
Lemma lines_from_join (s : string) :
  forall (cur : string -> string) (pre : string),
    (forall x, cur x = pre +:+ x) ->
    PyStr.join "" (PyStr.lines_from cur s) = pre +:+ s.
Proof.
  induction s as [|c s IH]; intros cur pre Hcur; cbn [PyStr.lines_from].
  - rewrite (Hcur ""), append_nil_r. destruct pre; reflexivity.
  - destruct (Ascii.eqb c "010").
    + rewrite join_empty_sep, (IH (fun x => x) "") by reflexivity.
      rewrite Hcur, append_assoc. reflexivity.
    + rewrite (IH _ (pre +:+ String c "")).
      * now rewrite append_assoc.
      * intros x. now rewrite Hcur, append_assoc.
Qed.

Lemma join_splitlines (s : string) : PyStr.join "" (PyStr.splitlines s) = s.
Proof. unfold PyStr.splitlines. now rewrite (lines_from_join s _ ""). Qed.

Lemma number_lines_lookup (offset : Z) (selected : list string) :
  forall (start idx : nat),
    number_lines offset start selected !! idx
    = (fun line => numbered (offset + Z.of_nat (start + idx) + 1) line)
        <$> selected !! idx.
Proof.
  induction selected as [|line rest IH]; intros start idx; [reflexivity |].
  destruct idx as [|idx]; cbn.
  - now rewrite Nat.add_0_r.
  - rewrite IH. now replace (S start + idx) with (start + S idx) by lia.
Qed.

Lemma number_lines_length (offset : Z) (selected : list string) (start : nat) :
  length (number_lines offset start selected) = length selected.
Proof.
  revert start. induction selected as [|line rest IH]; intros start; cbn;
    [reflexivity | now rewrite IH].
Qed.

(** [read], with the file read and the two numbers found. *)
Lemma read_unfold (w : world) (args : json) (path text : string) (o l : Z) :
  getitem args "path" = Ret (JStr path) ->
  files w !! path = Some (File text None) ->
  get_default args "offset" (JInt 0) = Ret (JInt o) ->
  get_default args "limit" (JInt (Z.of_nat (length (PyStr.splitlines text))))
  = Ret (JInt l) ->
  read args w
  = (Ret (PyStr.join "" (number_lines o 0 (slice (PyStr.splitlines text) o (o + l)))),
     w).
Proof.
  intros Hpath Hfile Ho Hl.
  unfold read, bind at 1, lift. rewrite Hpath.
  unfold bind at 1, open_read. rewrite Hfile.
  unfold bind at 1. cbn [read_all].
  unfold bind at 1. rewrite Ho.
  unfold bind at 1. rewrite Hl. reflexivity.
Qed.

(** X1.  With an offset that is not negative, [read] shows lines of the
    file in their order, each behind its real line number, counted from 1,
    and with a limit that is not negative it shows all the lines from the
    offset on that the limit allows. *)
Theorem read_shows_real_line_numbers
    (w : world) (args : json) (path text : string) (o l : Z) :
  getitem args "path" = Ret (JStr path) ->
  files w !! path = Some (File text None) ->
  get_default args "offset" (JInt 0) = Ret (JInt o) ->
  get_default args "limit" (JInt (Z.of_nat (length (PyStr.splitlines text))))
  = Ret (JInt l) ->
  (0 <= o)%Z ->
  exists shown,
    read args w = (Ret (PyStr.join "" shown), w) /\
    (forall idx entry,
       shown !! idx = Some entry ->
       exists line,
         PyStr.splitlines text !! (Z.to_nat o + idx) = Some line /\
         entry = numbered (Z.of_nat (Z.to_nat o + idx) + 1) line) /\
    ((0 <= l)%Z ->
     length shown
     = Nat.min (Z.to_nat l) (length (PyStr.splitlines text) - Z.to_nat o)).
Proof.
  intros Hpath Hfile Ho Hl Hpos.
  set (lines := PyStr.splitlines text) in *.
  exists (number_lines o 0 (slice lines o (o + l))).
  split; [eapply read_unfold; eassumption |]. split.
  - intros idx entry Hentry. rewrite number_lines_lookup in Hentry.
    destruct (slice lines o (o + l) !! idx) as [line|] eqn:S; [| discriminate].
    injection Hentry as <-. exists line.
    unfold slice in S. apply lookup_take_Some in S as [S _].
    rewrite lookup_drop in S.
    assert (Hlo : clamp (length lines) o = Z.to_nat o).
    { apply lookup_lt_Some in S. unfold clamp in *.
      destruct (Z.ltb_spec o 0); lia. }
    rewrite Hlo in S. split; [exact S |].
    cbn [Nat.add]. f_equal. lia.
  - intros Hl0. rewrite number_lines_length. unfold slice.
    rewrite length_take, length_drop. unfold clamp.
    destruct (Z.ltb_spec o 0); [lia |].
    destruct (Z.ltb_spec (o + l) 0); lia.
Qed.

Lemma read_shows_real_line_numbers_witness :
  exists shown,
    read (JObj [("path", JStr "notes.txt"); ("offset", JInt 1); ("limit", JInt 1)])
         notes_world
    = (Ret (PyStr.join "" shown), notes_world) /\
    (forall idx entry,
       shown !! idx = Some entry ->
       exists line,
         PyStr.splitlines three_lines !! (1 + idx) = Some line /\
         entry = numbered (Z.of_nat (1 + idx) + 1) line) /\
    length shown = 1.
Proof.
  destruct (read_shows_real_line_numbers
              notes_world
              (JObj [("path", JStr "notes.txt"); ("offset", JInt 1); ("limit", JInt 1)])
              "notes.txt" three_lines 1 1 eq_refl eq_refl eq_refl eq_refl
              ltac:(lia))
    as (shown & Hread & Hlines & Hlen).
  exists shown. split; [exact Hread |]. split; [exact Hlines |].
  apply Hlen. lia.
Defined.

Lemma slice_whole {A} (l : list A) : slice l 0 (0 + Z.of_nat (length l)) = l.
Proof.
  unfold slice, clamp. rewrite Z.add_0_l.
  destruct (Z.ltb_spec (Z.of_nat (length l)) 0); [lia |].
  change (0 <? 0)%Z with false. change (Z.to_nat 0) with 0.
  rewrite Nat2Z.id, Nat.min_id, Nat.min_0_l, Nat.sub_0_r.
  apply firstn_all.
Qed.

(** X2.  With no limit given, a negative offset that reaches into the file
    selects nothing: [read] returns the empty text, not the last lines. *)
Theorem read_negative_offset_shows_nothing
    (w : world) (args : json) (path text : string) (o : Z) :
  getitem args "path" = Ret (JStr path) ->
  files w !! path = Some (File text None) ->
  get_default args "offset" (JInt 0) = Ret (JInt o) ->
  (forall default, get_default args "limit" default = Ret default) ->
  (- Z.of_nat (length (PyStr.splitlines text)) <= o < 0)%Z ->
  read args w = (Ret "", w).
Proof.
  intros Hpath Hfile Ho Hl Hneg.
  rewrite (read_unfold w args path text o
             (Z.of_nat (length (PyStr.splitlines text))) Hpath Hfile Ho (Hl _)).
  unfold slice, clamp.
  destruct (Z.ltb_spec o 0); [| lia].
  destruct (Z.ltb_spec (o + Z.of_nat (length (PyStr.splitlines text))) 0); [lia |].
  replace (_ - _) with 0 by lia. reflexivity.
Qed.

Lemma read_negative_offset_witness :
  read (JObj [("path", JStr "notes.txt"); ("offset", JInt (-1))]) notes_world
  = (Ret "", notes_world).
Proof.
  apply (read_negative_offset_shows_nothing
           notes_world (JObj [("path", JStr "notes.txt"); ("offset", JInt (-1))])
           "notes.txt" three_lines (-1));
    try reflexivity.
  change (-3 <= -1 < 0)%Z. lia.
Defined.

(** ** Writing *)

Lemma getitem_returns (v : json) (k : string) : getitem v k <> Hang.
Proof.
  unfold getitem. destruct v; try discriminate.
  destruct (lookup_key k fields); discriminate.
Qed.

Lemma write_unfold (w : world) (args : json) (p : string) :
  getitem args "path" = Ret (JStr p) ->
  os_write_denied w p = None ->
  files w !! p <> Some Dir ->
  write args w
  = (let! content := lift (getitem args "content") in
     let! done := write_text p content in
     ret "ok") (with_files w (<[p := File "" None]> (files w))).
Proof.
  intros Hpath Hw Hdir.
  unfold write, bind at 1, lift. rewrite Hpath.
  unfold bind at 1, open_write. rewrite Hw.
  destruct (files w !! p) as [[|text bad]|]; try reflexivity. contradiction.
Qed.



(** X4.  [write] opens the file before it looks for the content: when the
    content is missing, or is not a string, the call fails and the file is
    left empty. *)
Theorem write_truncates_before_it_fails
    (w : world) (args : json) (p : string) :
  getitem args "path" = Ret (JStr p) ->
  os_write_denied w p = None ->
  files w !! p <> Some Dir ->
  (forall content, getitem args "content" <> Ret (JStr content)) ->
  exists e,
    write args w = (Raise e, with_files w (<[p := File "" None]> (files w))) /\
    run_tool "write" args w
    = (Ret ("error: " +:+ exn_str e),
       with_files w (<[p := File "" None]> (files w))).
Proof.
  intros Hpath Hw Hdir Hno.
  assert (E : exists e, is_Exception e = true /\
                        write args w
                        = (Raise e, with_files w (<[p := File "" None]> (files w)))).
  { rewrite (write_unfold w args p Hpath Hw Hdir).
    unfold bind at 1, lift.
    destruct (getitem args "content") as [content| e |] eqn:C.
    - destruct content; try (eexists; split; [| reflexivity]; reflexivity).
      now destruct (Hno s).
    - exists e. split; [| reflexivity]. now apply (getitem_safe args "content").
    - now apply getitem_returns in C. }
  destruct E as (e & He & E). exists e. split; [exact E |].
  unfold run_tool, try_except.
  change (call_tool "write" args w) with (write args w).
  rewrite E, He. reflexivity.
Qed.

Lemma write_truncates_witness :
  exists e,
    write (just_path (JStr "notes.txt")) notes_world
    = (Raise e, with_files notes_world (<["notes.txt" := File "" None]> (files notes_world))) /\
    run_tool "write" (just_path (JStr "notes.txt")) notes_world
    = (Ret ("error: " +:+ exn_str e),
       with_files notes_world (<["notes.txt" := File "" None]> (files notes_world))).
Proof.
  apply (write_truncates_before_it_fails
           notes_world (just_path (JStr "notes.txt")) "notes.txt");
    try reflexivity.
  - intros H. vm_compute in H. discriminate H.
  - intros content. discriminate.
Defined.

(** ** What the tools leave alone *)

Create HintDb leaves discriminated.

Lemma leaves_ret {A} (a : A) : leaves_host (ret a).
Proof. intros w. reflexivity. Qed.

Lemma leaves_raise {A} (e : exn) : leaves_host (@raise world A e).
Proof. intros w. reflexivity. Qed.

Lemma leaves_lift {A} (r : result A) : leaves_host (lift r).
Proof. intros w. reflexivity. Qed.

Lemma leaves_bind {A B} (m : M world A) (k : A -> M world B) :
  leaves_host m -> (forall a, leaves_host (k a)) -> leaves_host (bind m k).
Proof.
  intros Hm Hk w. unfold bind. specialize (Hm w).
  destruct (m w) as [[a|e|] w1]; cbn in *; subst; auto. apply Hk.
Qed.

Lemma leaves_try_except {A} (body : M world A) (handler : exn -> M world A) :
  leaves_host body -> (forall e, leaves_host (handler e)) ->
  leaves_host (try_except body handler).
Proof.
  intros Hb Hh w. unfold try_except. specialize (Hb w).
  destruct (body w) as [[a|e|] w1]; cbn in *; subst; auto.
  destruct (is_Exception e); [apply Hh | reflexivity].
Qed.

Lemma leaves_look {A} (f : world -> A) : leaves_host (fun w => (Ret (f w), w)).
Proof. intros w. reflexivity. Qed.

Lemma leaves_open_read (path : json) : leaves_host (open_read path).
Proof.
  intros w. unfold open_read. destruct path; try reflexivity.
  destruct (files w !! s) as [[|text bad]|]; reflexivity.
Qed.

Lemma leaves_re_compile (pat : json) : leaves_host (re_compile pat).
Proof.
  intros w. unfold re_compile. destruct pat; try reflexivity.
  destruct (re_invalid w s); reflexivity.
Qed.

#[local] Hint Resolve leaves_ret leaves_raise leaves_lift leaves_look
  leaves_open_read leaves_re_compile : leaves.

Ltac leaves :=
  repeat first
    [ apply leaves_bind; [| intros ?]
    | apply leaves_try_except; [| intros ?]
    | solve [auto with leaves]
    | match goal with
      | |- leaves_host (match ?x with _ => _ end) => destruct x
      | |- leaves_host (if ?b then _ else _) => destruct b
      end ].

Lemma leaves_grep_files (pattern : string) (filepaths hits : list string) :
  leaves_host (grep_files pattern filepaths hits).
Proof.
  revert hits. induction filepaths as [|f rest IH]; intros hits; cbn [grep_files].
  - apply leaves_ret.
  - apply leaves_bind; [unfold grep_file; leaves | intros ?; apply IH].
Qed.


Lemma files_changed_only_refl (w : world) : files_changed_only w w.
Proof. now destruct w. Qed.

(** The end of [edit]: open the file, write the text, report. *)
Lemma store_frame (path : json) (text : string) (w : world) :
  let r := (let! p := open_write path in
            let! done := write_text p (JStr text) in
            ret "ok") w in
  (fst r = Ret "ok" \/ snd r = w) /\
  files_changed_only w (snd r) /\
  forall q, path <> JStr q -> files (snd r) !! q = files w !! q.
Proof.
  unfold bind, open_write, write_text, ret.
  destruct path; cbn; try (split; [now right | split; [apply files_changed_only_refl | reflexivity]]).
  destruct (os_write_denied w s); cbn;
    [split; [now right | split; [apply files_changed_only_refl | reflexivity]] |].
  destruct (files w !! s) as [[|old bad]|]; cbn;
    try (split; [now right | split; [apply files_changed_only_refl | reflexivity]]);
    (split; [now left | split; [reflexivity |]]);
    intros q Hne; rewrite !lookup_insert_ne by congruence; reflexivity.
Qed.

(** [write] after the lookup of the path. *)
Lemma write_frame (args path : json) (w : world) :
  let r := (let! p := open_write path in
            let! content := lift (getitem args "content") in
            let! done := write_text p content in
            ret "ok") w in
  files_changed_only w (snd r) /\
  forall q, path <> JStr q -> files (snd r) !! q = files w !! q.
Proof.
  unfold bind, open_write, write_text, ret, lift.
  destruct path; cbn; try (split; [apply files_changed_only_refl | reflexivity]).
  destruct (os_write_denied w s); cbn;
    [split; [apply files_changed_only_refl | reflexivity] |].
  assert (Hne : forall q fs, JStr s <> JStr q ->
                             <[s := fs]> (files w) !! q = files w !! q).
  { intros q fs H. apply lookup_insert_ne. congruence. }
  destruct (files w !! s) as [[|old bad]|]; cbn;
    try (split; [apply files_changed_only_refl | reflexivity]);
    (destruct (getitem args "content") as [[]| |]; cbn;
     (split; [reflexivity |]); intros q Hq;
     rewrite ?lookup_insert_ne by congruence; reflexivity).
Qed.

(** [edit] is a chain of lookups and reads that ends in the store. *)
Lemma edit_cases (args : json) (w : world) :
  (exists r, edit args w = (r, w)) \/
  (exists path text,
     getitem args "path" = Ret path /\
     edit args w = (let! p := open_write path in
                    let! done := write_text p (JStr text) in
                    ret "ok") w).
Proof.
  remember (edit args w) as out eqn:E.
  unfold edit in E. unfold bind at 1, lift in E.
  destruct (getitem args "path") as [path| |] eqn:P;
    try (left; eexists; exact E).
  unfold bind at 1 in E. pose proof (leaves_open_read path w) as Hr.
  destruct (open_read path w) as [[f| |] w1]; cbn in Hr; subst w1;
    try (left; eexists; exact E).
  unfold bind at 1 in E. destruct (read_all f) as [text| |];
    try (left; eexists; exact E).
  unfold bind at 1 in E. destruct (getitem args "old") as [old| |];
    try (left; eexists; exact E).
  unfold bind at 1 in E. destruct (getitem args "new") as [new| |];
    try (left; eexists; exact E).
  destruct old as [ | ? | ? | ? ? | old | ? | ?]; try (left; eexists; exact E).
  destruct (negb (PyStr.contains old text)); try (left; eexists; exact E).
  unfold bind at 1 in E. destruct (get_default args "all" JNull) as [all| |];
    try (left; eexists; exact E).
  destruct (negb (truthy all) && (1 <? PyStr.count old text));
    try (left; eexists; exact E).
  destruct new as [ | ? | ? | ? ? | new | ? | ?]; try (left; eexists; exact E).
  right. exists path. eexists. split; [reflexivity | exact E].
Qed.

Lemma edit_frame (args : json) (w : world) :
  (fst (edit args w) = Ret "ok" \/ snd (edit args w) = w) /\
  files_changed_only w (snd (edit args w)) /\
  forall q, getitem args "path" <> Ret (JStr q) ->
            files (snd (edit args w)) !! q = files w !! q.
Proof.
  destruct (edit_cases args w) as [(r & ->) | (path & text & P & ->)].
  - split; [now right |]. split; [apply files_changed_only_refl | reflexivity].
  - destruct (store_frame path text w) as (Ha & Hc & Hq).
    split; [exact Ha |]. split; [exact Hc |].
    intros q Hne. apply Hq. congruence.
Qed.

Lemma write_cases (args : json) (w : world) :
  (exists r, write args w = (r, w)) \/
  (exists path,
     getitem args "path" = Ret path /\
     write args w = (let! p := open_write path in
                     let! content := lift (getitem args "content") in
                     let! done := write_text p content in
                     ret "ok") w).
Proof.
  remember (write args w) as out eqn:E.
  unfold write in E. unfold bind at 1, lift in E.
  destruct (getitem args "path") as [path| |] eqn:P;
    try (left; eexists; exact E).
  right. exists path. split; [reflexivity | exact E].
Qed.




(** ** Listing files *)

Lemma insert_desc_perm (key : string -> Z) (x : string) (l : list string) :
  Permutation (insert_desc key x l) (x :: l).
Proof.
  induction l as [|y rest IH]; cbn; [reflexivity |].
  destruct (key y <=? key x)%Z; [reflexivity |].
  rewrite IH. apply perm_swap.
Qed.

Lemma insert_desc_descending (key : string -> Z) (x : string) (l : list string) :
  descending key l -> descending key (insert_desc key x l).
Proof.
  induction l as [|y rest IH]; cbn [insert_desc descending].
  - intros _. split; [constructor | exact I].
  - intros [Hy Hrest]. destruct (Z.leb_spec (key y) (key x)).
    + cbn [descending]. split; [| split; assumption].
      constructor; [assumption |].
      eapply Forall_impl; [exact Hy |]. cbn. intros z Hz. lia.
    + cbn [descending]. split; [| now apply IH].
      rewrite (insert_desc_perm key x rest). constructor; [lia | assumption].
Qed.

Lemma sorted_desc_spec (key : string -> Z) (l : list string) :
  Permutation (sorted_desc key l) l /\ descending key (sorted_desc key l).
Proof.
  induction l as [|x rest [IHp IHd]]; cbn; [split; [reflexivity | exact I] |].
  split.
  - fold (sorted_desc key rest). rewrite insert_desc_perm. now constructor.
  - now apply insert_desc_descending.
Qed.

(** X8.  [glob] lists exactly the paths the pattern matches, each once as
    found, ordered so that no path comes before a newer one (directories
    count as oldest); when nothing matches the result is [none]. *)
Theorem glob_lists_newest_first (w : world) (args : json) (pat base : string) :
  getitem args "pat" = Ret (JStr pat) ->
  get_default args "path" (JStr ".") = Ret (JStr base) ->
  let found := os_glob w (files w)
                 (PyStr.replace "//" "/" ((base +:+ "/") +:+ pat) None) in
  exists listed,
    glob args w = (Ret (or_else (PyStr.join newline listed) "none"), w) /\
    Permutation listed found /\
    descending (mtime_key w) listed /\
    (found = [] -> glob args w = (Ret "none", w)).
Proof.
  intros Hpat Hbase found.
  assert (E : glob args w
              = (Ret (or_else (PyStr.join newline (sorted_desc (mtime_key w) found))
                              "none"), w)).
  { unfold glob, bind at 1, lift. rewrite Hbase.
    unfold bind at 1. cbn [concat].
    unfold bind at 1. rewrite Hpat.
    unfold bind at 1. cbn [concat]. reflexivity. }
  destruct (sorted_desc_spec (mtime_key w) found) as [Hp Hd].
  exists (sorted_desc (mtime_key w) found). repeat split; try assumption.
  intros Hnone. rewrite E, Hnone. reflexivity.
Qed.

Lemma glob_lists_newest_first_witness :
  glob (JObj [("pat", JStr "*")]) glob_world
  = (Ret ("new.txt" +:+ newline +:+ "old.txt" +:+ newline +:+ "src"), glob_world).
Proof.
  destruct (glob_lists_newest_first glob_world (JObj [("pat", JStr "*")]) "*" "."
                                    eq_refl eq_refl)
    as (listed & Hglob & _).
  reflexivity.
Defined.

(** ** The shell tool, when the process ends and when it does not *)

Lemma read_loop_reads_all (p : process) (eof tx : nat)
    (pending : list (nat * string)) :
  p_eof p = Some eof -> p_exit p = Some tx ->
  Forall (fun timed_line => snd timed_line <> "") pending ->
  forall t output_lines shown,
    read_loop p pending t output_lines shown
    = (Some (Nat.max (Nat.max (last_output pending t) eof) tx),
       output_lines ++ map snd pending,
       shown ++ map progress pending).
Proof.
  intros Heof Hexit. induction 1 as [|[ready line] rest Hne _ IH];
    intros t out shown; cbn [read_loop].
  - rewrite Heof, Hexit. cbn. now rewrite !app_nil_r.
  - cbn in Hne. destruct (String.eqb_spec line ""); [contradiction |].
    rewrite IH. cbn. now rewrite <- !app_assoc.
Qed.

Lemma read_loop_never_ends (p : process) (pending : list (nat * string)) :
  p_eof p = None \/ p_exit p = None ->
  Forall (fun timed_line => snd timed_line <> "") pending ->
  forall t output_lines shown,
    fst (fst (read_loop p pending t output_lines shown)) = None.
Proof.
  intros Hnever. induction 1 as [|[ready line] rest Hne _ IH];
    intros t out shown; cbn [read_loop].
  - destruct Hnever as [-> | H]; [reflexivity |].
    rewrite H. now destruct (p_eof p).
  - cbn in Hne. destruct (String.eqb_spec line ""); [contradiction |]. apply IH.
Qed.

(** X9.  When the process closes its output and exits, [bash] returns the
    lines it printed, joined and trimmed ([(empty)] when that is nothing),
    after it has shown every line; the call takes until the last of: the
    last line, the end of the output, the exit. *)
Theorem bash_returns_the_output
    (w : world) (args cmd : json) (p : process) (eof tx : nat) :
  getitem args "cmd" = Ret cmd ->
  os_popen w (files w) cmd = inr p ->
  p_eof p = Some eof -> p_exit p = Some tx ->
  Forall (fun timed_line => snd timed_line <> "") (p_lines p) ->
  bash args w
  = (Ret (or_else (PyStr.strip (PyStr.join "" (map snd (p_lines p)))) "(empty)"),
     with_trace
       (with_clock (with_files w (p_files p))
                   (clock w + Nat.max (Nat.max (last_output (p_lines p) 0) eof) tx))
       (trace w ++ map progress (p_lines p))).
Proof.
  intros Hcmd Hpopen Heof Hexit Hlines.
  unfold bash, bind at 1, lift. rewrite Hcmd.
  unfold bind at 1, popen. rewrite Hpopen.
  unfold run_process.
  rewrite (read_loop_reads_all p eof tx (p_lines p) Heof Hexit Hlines).
  unfold wait. rewrite Hexit.
  destruct (Nat.leb_spec tx (Nat.max (Nat.max (last_output (p_lines p) 0) eof) tx));
    [reflexivity | lia].
Qed.

Lemma bash_returns_the_output_witness :
  bash (JObj [("cmd", JStr "./greet.sh")]) (host_running chatty)
  = (Ret ("hello" +:+ newline +:+ "bye"),
     with_trace (with_clock (host_running chatty) 7)
                [EvBashLine "hello"; EvBashLine "bye"]).
Proof.
  apply (bash_returns_the_output
           (host_running chatty) (JObj [("cmd", JStr "./greet.sh")])
           (JStr "./greet.sh") (chatty ∅) 6 7);
    try reflexivity.
  repeat constructor; discriminate.
Defined.

(** X10.  When the process never exits, or never closes its output, [bash]
    never returns: nothing bounds the time the tool waits. *)
Theorem bash_waits_for_ever (w : world) (args cmd : json) (p : process) :
  getitem args "cmd" = Ret cmd ->
  os_popen w (files w) cmd = inr p ->
  p_eof p = None \/ p_exit p = None ->
  Forall (fun timed_line => snd timed_line <> "") (p_lines p) ->
  fst (bash args w) = Hang /\ fst (run_tool "bash" args w) = Hang.
Proof.
  intros Hcmd Hpopen Hnever Hlines.
  assert (E : fst (bash args w) = Hang).
  { unfold bash, bind at 1, lift. rewrite Hcmd.
    unfold bind at 1, popen. rewrite Hpopen. unfold run_process.
    pose proof (read_loop_never_ends p (p_lines p) Hnever Hlines 0 [] []) as H.
    destruct (read_loop p (p_lines p) 0 [] []) as [[[t|] out] shown];
      [discriminate | reflexivity]. }
  split; [exact E |].
  unfold run_tool, try_except. change (call_tool "bash" args w) with (bash args w).
  destruct (bash args w) as [[text|e|] w']; cbn in E; try discriminate.
  reflexivity.
Qed.

Lemma bash_waits_for_ever_witness :
  fst (bash (JObj [("cmd", JStr "./serve.sh")]) (host_running daemon)) = Hang /\
  fst (run_tool "bash" (JObj [("cmd", JStr "./serve.sh")]) (host_running daemon)) = Hang.
Proof.
  apply (bash_waits_for_ever
           (host_running daemon) (JObj [("cmd", JStr "./serve.sh")])
           (JStr "./serve.sh") (daemon ∅));
    try reflexivity.
  - right. reflexivity.
  - repeat constructor; discriminate.
Defined.

(** * More about the schemas *)

Lemma drop_suffix (n : nat) (s : string) : exists pre, s = pre +:+ PyStr.drop n s.
Proof.
  revert s. induction n as [|n IH]; intros s; [now exists "" |].
  destruct s as [|c s]; [now exists "" |].
  destruct (IH s) as (pre & H). exists (String c pre). cbn. now rewrite <- H.
Qed.

Lemma endswith_suffix (p s : string) :
  PyStr.endswith p s = true -> exists pre, s = pre +:+ p.
Proof.
  unfold PyStr.endswith. intros H. apply andb_true_iff in H as [_ H].
  apply String.eqb_eq in H.
  destruct (drop_suffix (String.length s - String.length p) s) as (pre & Hs).
  exists pre. now rewrite <- H.
Qed.

(** What [rstrip] returns does not end in a character it strips. *)
Lemma rstrip_by_end (p : ascii -> bool) (s : string) :
  forall pre c, PyStr.rstrip_by p s = pre +:+ String c "" -> p c = false.
Proof.
  induction s as [|a s IH]; intros pre c; cbn [PyStr.rstrip_by].
  - destruct pre; discriminate.
  - destruct (p a) eqn:Pa; cbn [andb].
    + destruct (String.eqb_spec (PyStr.rstrip_by p s) "") as [E | E].
      * destruct pre; discriminate.
      * destruct pre as [|b pre]; cbn; intros H; injection H as _ H.
        -- now rewrite H in E.
        -- now apply (IH pre c).
    + destruct pre as [|b pre]; cbn; intros H; injection H as Ha H.
      * now subst a.
      * now apply (IH pre c).
Qed.

Lemma rstrip_char_end (c : ascii) (s : string) :
  PyStr.endswith (String c "") (PyStr.rstrip_char c s) = false.
Proof.
  destruct (PyStr.endswith (String c "") (PyStr.rstrip_char c s)) eqn:E;
    [| reflexivity].
  apply endswith_suffix in E as (pre & E).
  apply rstrip_by_end in E. now rewrite Ascii.eqb_refl in E.
Qed.

Lemma prop_type_has_no_marker (P : provider) (param_type : string) :
  PyStr.endswith "?" (prop_type P param_type) = false.
Proof.
  unfold prop_type.
  repeat match goal with
         | |- context [if ?b then _ else _] => destruct b eqn:?
         end; try reflexivity; apply rstrip_char_end.
Qed.

(** X11.  The schema of a tool, for every provider and every tool: the
    name and the description as registered, one property for each
    parameter, in order, whose type tag never carries the [?] of an optional
    parameter, and a list of required parameters with exactly those whose
    type is not marked optional. *)
Theorem tool_schema_shape
    (P : provider) (name description : string) (params : list (string * string))
    (fn : json -> M world string) :
  exists properties required,
    tool_schema P (name, (description, params, fn))
    = JObj [("name", JStr name);
            ("description", JStr description);
            (schema_body P, JObj [("type", JStr (object_tag P));
                                  ("properties", JObj properties);
                                  ("required", JArr required)])] /\
    map fst properties = map fst params /\
    Forall (fun property =>
              exists tag, snd property = JObj [("type", JStr tag)] /\
                          PyStr.endswith "?" tag = false) properties /\
    forall param,
      In (JStr param) required <->
      exists param_type, In (param, param_type) params /\
                         PyStr.endswith "?" param_type = false.
Proof.
  exists (map (fun p => (fst p, JObj [("type", JStr (prop_type P (snd p)))])) params),
         (map (fun p => JStr (fst p))
              (List.filter (fun p => negb (PyStr.endswith "?" (snd p))) params)).
  split; [| split; [| split]].
  - unfold tool_schema, schema_body, object_tag. now destruct (is_gemini P).
  - rewrite map_map. reflexivity.
  - apply Forall_forall. intros property Hin.
    apply list_elem_of_In, in_map_iff in Hin as ([p ty] & <- & _). cbn.
    eexists. split; [reflexivity | apply prop_type_has_no_marker].
  - intros param. rewrite in_map_iff. split.
    + intros ([p ty] & Hp & Hin). injection Hp as ->.
      apply filter_In in Hin as [Hin Hopt]. cbn in Hopt.
      exists ty. split; [assumption |]. now apply negb_true_iff.
    + intros (ty & Hin & Hopt). exists (param, ty). split; [reflexivity |].
      apply filter_In. split; [assumption |]. cbn. now rewrite Hopt.
Qed.

(** * More about the Gemini adapter *)

(** X12.  A conversation of text turns is encoded turn by turn, in order
    and with none left out: the role [user] stays, every other role becomes
    [model], the text is the one part; the system prompt is not among the
    contents. *)
Theorem text_conversation_encoding
    (turns : list (string * string)) (system_prompt : string) :
  convert_messages_to_gemini (text_turns turns) system_prompt
  = Ret (map gemini_text_entry turns).
Proof.
  induction turns as [|[role text] rest IH]; [reflexivity |].
  cbn [text_turns map convert_messages_to_gemini].
  fold (text_turns rest). unfold turn at 1. cbn [getitem lookup_key String.eqb].
  cbn. rewrite IH. reflexivity.
Qed.

Lemma convert_messages_app (a b : list json) (system_prompt : string)
    (xs ys : list json) :
  convert_messages_to_gemini a system_prompt = Ret xs ->
  convert_messages_to_gemini b system_prompt = Ret ys ->
  convert_messages_to_gemini (a ++ b) system_prompt = Ret (xs ++ ys).
Proof.
  revert xs. induction a as [|msg rest IH]; intros xs Ha Hb.
  - injection Ha as <-. exact Hb.
  - cbn [app convert_messages_to_gemini] in *. unfold rbind in *.
    destruct (getitem msg "role") as [r| |]; try discriminate.
    destruct (getitem msg "content") as [content| |]; try discriminate.
    match type of Ha with
    | match ?x with _ => _ end = _ => destruct x as [entry| |]; try discriminate
    end.
    destruct (convert_messages_to_gemini rest system_prompt) as [tail| |];
      try discriminate.
    rewrite (IH tail eq_refl Hb). injection Ha as <-. now rewrite app_assoc.
Qed.

(** The blocks of a Gemini reply and the results of the loop have the keys
    the encoder looks up. *)
Lemma gemini_parts_of_decoded (blocks : list json) :
  Forall decoded_block blocks ->
  forall parts, exists out, gemini_parts blocks parts = Ret out.
Proof.
  induction 1 as [|block rest Hb _ IH]; intros parts; cbn [gemini_parts];
    [eauto |].
  destruct Hb as [(text & ->) | (n & name & input & ->)]; cbn; apply IH.
Qed.

Lemma gemini_parts_of_results (blocks results : list json) :
  answers blocks results ->
  forall parts, exists out, gemini_parts results parts = Ret out.
Proof.
  induction 1 as [|r rest (b & id & text & _ & _ & _ & ->) _ IH]; intros parts;
    cbn [gemini_parts]; [eauto |].
  cbn. apply IH.
Qed.

Lemma gemini_accepts_turn (role : string) (items : list json) (system_prompt : string) :
  (forall parts, exists out, gemini_parts items parts = Ret out) ->
  exists contents,
    convert_messages_to_gemini [turn role (JArr items)] system_prompt = Ret contents.
Proof.
  intros H. destruct (H []) as (out & Hout).
  cbn. rewrite Hout. cbn. destruct out; eauto.
Qed.

Lemma gemini_accepts_conversation (msgs : list json) (system_prompt : string) :
  conversation Gemini msgs ->
  exists contents, convert_messages_to_gemini msgs system_prompt = Ret contents.
Proof.
  induction 1 as [| msgs text _ (xs & IH) _ | msgs content _ (xs & IH) Ha
                 | msgs blocks results _ (xs & IH) Ha _ Hans].
  - now exists [].
  - eexists. eapply convert_messages_app; [exact IH | reflexivity].
  - destruct (Ha eq_refl) as (blocks & -> & Hd).
    destruct (gemini_accepts_turn "assistant" blocks system_prompt
                (gemini_parts_of_decoded blocks Hd)) as (ys & Hy).
    eexists. eapply convert_messages_app; [exact IH | exact Hy].
  - destruct (Ha eq_refl) as (blocks' & Hb & Hd). injection Hb as <-.
    destruct (gemini_accepts_turn "assistant" blocks system_prompt
                (gemini_parts_of_decoded blocks Hd)) as (ys & Hy).
    destruct (gemini_accepts_turn "user" results system_prompt
                (gemini_parts_of_results blocks results Hans)) as (zs & Hz).
    eexists. eapply convert_messages_app; [exact IH |].
    apply (convert_messages_app [turn "assistant" (JArr blocks)]
                                [turn "user" (JArr results)] _ _ _ Hy Hz).
Qed.

(** X13.  With the Gemini provider, the conversation [main] has recorded
    can always be encoded: whatever the provider answered and the tools
    returned, [convert_messages_to_gemini] does not raise on it. *)
Theorem gemini_conversation_is_encodable
    (cfg : config) (w : world) (network : list (result json))
    (inputs : list user_event) (system_prompt : string) :
  PROVIDER cfg = Gemini ->
  exists contents,
    convert_messages_to_gemini (messages (snd (main cfg w network inputs)))
                               system_prompt
    = Ret contents.
Proof.
  intros G. apply gemini_accepts_conversation. rewrite <- G.
  apply main_conversation.
Qed.

Lemma gemini_conversation_is_encodable_witness :
  exists contents,
    convert_messages_to_gemini
      (messages (snd (main gemini_cfg demo_world glob_call_net [Line "list files"])))
      "be brief"
    = Ret contents.
Proof.
  apply (gemini_conversation_is_encodable gemini_cfg demo_world glob_call_net
                                          [Line "list files"] "be brief").
  reflexivity.
Defined.

(** The decoder builds blocks of two shapes only. *)
Lemma gemini_blocks_shape (parts : list json) :
  forall content_blocks out,
    Forall gemini_block content_blocks ->
    gemini_blocks parts content_blocks = Ret out ->
    Forall gemini_block out.
Proof.
  induction parts as [|part rest IH]; intros acc out Hacc; cbn [gemini_blocks].
  - intros H. now injection H as <-.
  - unfold rbind.
    destruct (has_key "text" part) as [[|]| |]; try discriminate.
    + destruct (getitem part "text") as [text| |]; try discriminate.
      apply IH. apply Forall_app. split; [assumption |].
      constructor; [| constructor]. left. now exists text.
    + destruct (has_key "functionCall" part) as [[|]| |]; try discriminate;
        [| now apply IH].
      destruct (getitem part "functionCall") as [fc| |]; try discriminate.
      destruct fc as [ | ? | ? | ? ? | ? | ? | fields]; try discriminate.
      cbn [get_default getitem].
      destruct (lookup_key "name" fields) as [name|]; [| discriminate].
      destruct name as [ | ? | ? | ? ? | name | ? | ?]; try discriminate.
      cbn [concat].
      destruct (lookup_key "args" fields) as [input|];
        apply IH; (apply Forall_app; split; [assumption |]);
        (constructor; [| constructor]); right; eexists _, _; reflexivity.
Qed.

(** Encoding blocks of these shapes and decoding the parts gives the
    blocks back. *)
Lemma gemini_blocks_round_trip (blocks : list json) :
  Forall gemini_block blocks ->
  forall parts,
    exists encoded,
      gemini_parts blocks parts = Ret (parts ++ encoded) /\
      forall content_blocks,
        gemini_blocks encoded content_blocks = Ret (content_blocks ++ blocks).
Proof.
  induction 1 as [|block rest Hb _ IH]; intros parts.
  - exists []. split; [cbn; now rewrite app_nil_r |].
    intros acc. cbn. now rewrite app_nil_r.
  - destruct Hb as [(text & ->) | (name & input & ->)].
    + destruct (IH (parts ++ [JObj [("text", text)]])) as (encoded & He & Hd).
      exists (JObj [("text", text)] :: encoded). split.
      * cbn. rewrite He. now rewrite <- app_assoc.
      * intros acc. cbn. rewrite Hd. now rewrite <- app_assoc.
    + destruct (IH (parts ++ [function_call [("name", JStr name); ("args", input)]]))
        as (encoded & He & Hd).
      exists (function_call [("name", JStr name); ("args", input)] :: encoded).
      unfold function_call in *. split.
      * cbn. rewrite He. now rewrite <- app_assoc.
      * intros acc. cbn. rewrite Hd. now rewrite <- app_assoc.
Qed.

(** X14.  What the Gemini decoder returns survives the round trip: its
    blocks can be encoded as the parts of a model turn, and decoding a reply
    made of these parts gives the same blocks again, ids included. *)
Theorem gemini_decode_encode_decode (gemini_response out : json) :
  convert_gemini_response gemini_response = Ret out ->
  exists blocks parts,
    out = reply blocks /\
    gemini_parts blocks [] = Ret parts /\
    convert_gemini_response (gemini_reply parts) = Ret out.
Proof.
  intros H.
  assert (Hshape : exists blocks, out = reply blocks /\ Forall gemini_block blocks).
  { assert (Hnotice : forall text, Forall gemini_block [text_block (JStr text)]).
    { intros text. constructor; [| constructor]. left. now eexists. }
    revert H. unfold convert_gemini_response, rbind.
    destruct (has_key "candidates" gemini_response) as [present| |]; try discriminate.
    destruct (if negb present then Ret true
              else match getitem gemini_response "candidates" with
                   | Ret a => Ret (negb (truthy a))
                   | Raise e => Raise e
                   | Hang => Hang
                   end) as [[|]| |]; try discriminate.
    { intros H. injection H as <-. eexists. split; [reflexivity | apply Hnotice]. }
    destruct (getitem gemini_response "candidates") as [candidates| |]; try discriminate.
    destruct (getitem0 candidates) as [candidate| |]; try discriminate.
    destruct (has_key "content" candidate) as [[|]| |]; try discriminate; cbn [negb].
    2:{ intros H. injection H as <-. eexists. split; [reflexivity | apply Hnotice]. }
    destruct (getitem candidate "content") as [content| |]; try discriminate.
    destruct (get_default content "parts" (JArr [])) as [parts| |]; try discriminate.
    destruct (iterate parts) as [items| |]; try discriminate.
    destruct (gemini_blocks items []) as [content_blocks| |] eqn:G; try discriminate.
    intros H. injection H as <-. exists content_blocks. split; [reflexivity |].
    now apply (gemini_blocks_shape items [] content_blocks). }
  destruct Hshape as (blocks & -> & Hblocks).
  destruct (gemini_blocks_round_trip blocks Hblocks []) as (parts & He & Hd).
  exists blocks, parts. split; [reflexivity |]. split; [exact He |].
  unfold convert_gemini_response, gemini_reply. cbn. now rewrite (Hd []).
Qed.

Lemma gemini_decode_encode_decode_witness :
  exists blocks parts,
    reply [tool_use_block (JStr "glob_call") "glob" (JObj [("pat", JStr "*")])]
    = reply blocks /\
    gemini_parts blocks [] = Ret parts /\
    convert_gemini_response (gemini_reply parts)
    = Ret (reply [tool_use_block (JStr "glob_call") "glob" (JObj [("pat", JStr "*")])]).
Proof.
  apply (gemini_decode_encode_decode
           (gemini_reply [function_call [("name", JStr "glob");
                                         ("args", JObj [("pat", JStr "*")])]])).
  reflexivity.
Defined.

(** The decoder reads the first candidate and nothing else: the
    other candidates and the other fields of the response do not change what
    it returns. *)
Theorem only_the_first_candidate_counts
    (fields : list (string * json)) (candidate : json) (others : list json) :
  lookup_key "candidates" fields = Some (JArr (candidate :: others)) ->
  convert_gemini_response (JObj fields)
  = convert_gemini_response (JObj [("candidates", JArr [candidate])]).
Proof.
  intros H. unfold convert_gemini_response. cbn. rewrite H. reflexivity.
Qed.

Lemma only_the_first_candidate_witness :
  convert_gemini_response
    (JObj [("candidates",
            JArr [JObj [("content", JObj [("parts", JArr [JObj [("text", JStr "a")]])])];
                  JObj [("content", JObj [("parts", JArr [JObj [("text", JStr "b")]])])]]);
           ("usageMetadata", JObj [])])
  = convert_gemini_response (gemini_reply [JObj [("text", JStr "a")]]).
Proof.
  apply (only_the_first_candidate_counts
           [("candidates",
             JArr [JObj [("content", JObj [("parts", JArr [JObj [("text", JStr "a")]])])];
                   JObj [("content", JObj [("parts", JArr [JObj [("text", JStr "b")]])])]]);
            ("usageMetadata", JObj [])]
           (JObj [("content", JObj [("parts", JArr [JObj [("text", JStr "a")]])])])
           [JObj [("content", JObj [("parts", JArr [JObj [("text", JStr "b")]])])]]).
  reflexivity.
Defined.

(** X15.  A first candidate without content (a reply that was cut off or
    blocked) decodes to one text block with the notice [Empty response from
    Gemini.], whatever else the candidate holds. *)
Theorem candidate_without_content_decodes_to_notice
    (fields candidate : list (string * json)) (others : list json) :
  lookup_key "candidates" fields = Some (JArr (JObj candidate :: others)) ->
  lookup_key "content" candidate = None ->
  convert_gemini_response (JObj fields) = Ret (notice "Empty response from Gemini.").
Proof.
  intros Hc Hn. unfold convert_gemini_response. cbn. rewrite Hc. cbn.
  rewrite Hn. reflexivity.
Qed.

Lemma candidate_without_content_witness :
  convert_gemini_response
    (JObj [("candidates", JArr [JObj [("finishReason", JStr "SAFETY")]])])
  = Ret (notice "Empty response from Gemini.").
Proof.
  apply (candidate_without_content_decodes_to_notice
           [("candidates", JArr [JObj [("finishReason", JStr "SAFETY")]])]
           [("finishReason", JStr "SAFETY")] []);
    reflexivity.
Defined.

(** * More about the loop *)

(** One block adds exactly one result when it is a tool use, and nothing
    otherwise. *)
Lemma dispatch_block_exact (block : json) (tool_results : list json) (s : session) :
  wp (dispatch_block block tool_results)
     (fun r s' =>
        forall results, r = Ret results ->
          if is_block "tool_use" block
          then exists id text,
                 getitem block "id" = Ret id /\
                 results = tool_results ++ [tool_result_block id text]
          else results = tool_results) s.
Proof.
  unfold dispatch_block, is_block.
  apply wp_bind, wp_lift.
  destruct (getitem block "type") as [type| |]; [| discriminate ..].
  apply wp_bind.
  apply (wp_mono _ (fun r s' => True)); [| exact I].
  intros [[]| |] s1 _; [| discriminate ..].
  destruct (eq_str type "tool_use").
  2:{ intros results H. now injection H as <-. }
  apply wp_bind, wp_lift.
  destruct (getitem block "name") as [tool_name| |]; [| discriminate ..].
  apply wp_bind, wp_lift.
  destruct (getitem block "input") as [tool_args| |]; [| discriminate ..].
  apply wp_bind, wp_lift.
  destruct (values tool_args) as [vals| |]; [| discriminate ..].
  apply wp_bind, wp_lift.
  destruct (getitem0 (JArr vals)) as [first| |]; [| discriminate ..].
  destruct tool_name; try discriminate.
  apply wp_bind, wp_in_host. intros [[]| |] w1; [| discriminate ..].
  apply wp_bind, wp_in_host. intros [text| |] w2; [| discriminate ..].
  apply wp_bind, wp_in_host. intros [[]| |] w3; [| discriminate ..].
  apply wp_bind, wp_lift.
  destruct (getitem block "id") as [id| |]; [| discriminate ..].
  intros results H. injection H as <-. now exists id, text.
Qed.

Lemma dispatch_exact (blocks : list json) :
  forall (tool_results : list json) (s : session),
    wp (dispatch blocks tool_results)
       (fun r s' =>
          forall results, r = Ret results ->
            exists extra,
              results = tool_results ++ extra /\
              Forall2 (fun r block =>
                         exists id text, getitem block "id" = Ret id /\
                                         r = tool_result_block id text)
                      extra (tool_uses blocks)) s.
Proof.
  induction blocks as [|block rest IH]; intros acc s; cbn [dispatch].
  - intros results H. injection H as <-. exists [].
    split; [now rewrite app_nil_r | constructor].
  - apply wp_bind. eapply wp_mono; [| apply dispatch_block_exact].
    intros [acc'| |] s1 Hb; [| discriminate ..].
    eapply wp_mono; [| apply IH].
    intros r s2 Hr results ->. destruct (Hr results eq_refl) as (extra & -> & Hextra).
    specialize (Hb acc' eq_refl). unfold tool_uses. cbn [List.filter].
    destruct (is_block "tool_use" block).
    + destruct Hb as (id & text & Hid & ->).
      exists (tool_result_block id text :: extra). split.
      * now rewrite <- app_assoc.
      * constructor; [now exists id, text | exact Hextra].
    + subst acc'. now exists extra.
Qed.

(** X16.  The results of a reply are built one for each tool use among its
    blocks, in the order of the blocks, each with the id of its tool use;
    blocks that are not tool uses get no result. *)
Theorem tool_results_keep_the_order
    (blocks results : list json) (s s' : session) :
  dispatch blocks [] s = (Ret results, s') ->
  Forall2 (fun r block =>
             exists id text, getitem block "id" = Ret id /\
                             r = tool_result_block id text)
          results (tool_uses blocks) /\
  length results = length (tool_uses blocks) /\
  tool_result_ids (turn "user" (JArr results))
  = tool_use_ids (turn "assistant" (JArr blocks)).
Proof.
  intros H. pose proof (dispatch_exact blocks [] s) as Hd.
  unfold wp in Hd. rewrite H in Hd.
  destruct (Hd results eq_refl) as (extra & -> & Hall). cbn [app].
  split; [exact Hall |]. split; [now apply Forall2_length in Hall |].
  clear H Hd. unfold tool_result_ids, tool_use_ids. cbn.
  revert extra Hall. induction blocks as [|block rest IH]; intros extra Hall.
  - apply Forall2_nil_inv_r in Hall as ->. reflexivity.
  - unfold tool_uses in Hall. cbn [List.filter flat_map] in *.
    destruct (is_block "tool_use" block).
    + apply Forall2_cons_inv_r in Hall
        as (r & rs & (id & text & Hid & ->) & Hrest & ->).
      cbn. rewrite Hid. cbn. f_equal. now apply IH.
    + cbn. now apply IH.
Qed.

Lemma tool_results_keep_the_order_witness :
  let blocks := [text_block (JStr "let me look");
                 tool_use_block (JStr "t1") "read" (JObj [("path", JStr "a.txt")]);
                 tool_use_block (JStr "t2") "read" (JObj [("path", JStr "b.txt")])] in
  exists results,
    length results = 2 /\
    tool_result_ids (turn "user" (JArr results)) = [JStr "t1"; JStr "t2"].
Proof.
  intros blocks.
  destruct (dispatch blocks [] (Session demo_world [] [])) as [[results| |] s'] eqn:D;
    try (vm_compute in D; discriminate D).
  exists results.
  destruct (tool_results_keep_the_order blocks results _ s' D) as (_ & Hlen & Hids).
  split; [exact Hlen | exact Hids].
Defined.

(** X17.  Blank lines, the commands and an interrupt never reach the
    provider: a run of such inputs ends normally with the transport and the
    files untouched, and shows nothing but the output of the commands. *)
Theorem quiet_inputs_make_no_call (cfg : config) (inputs : list user_event) :
  Forall quiet inputs ->
  forall s,
    fst (repl cfg inputs s) = Ret tt /\
    net (snd (repl cfg inputs s)) = net s /\
    files (host (snd (repl cfg inputs s))) = files (host s) /\
    exists shown,
      trace (host (snd (repl cfg inputs s))) = trace (host s) ++ shown /\
      Forall command_output shown.
Proof.
  assert (Hstop : forall s : session,
             fst (@ret session unit tt s) = Ret tt /\
             net (snd (@ret session unit tt s)) = net s /\
             files (host (snd (@ret session unit tt s))) = files (host s) /\
             exists shown,
               trace (host (snd (@ret session unit tt s))) = trace (host s) ++ shown /\
               Forall command_output shown).
  { intros s. repeat split. exists []. split; [now rewrite app_nil_r | constructor]. }
  induction 1 as [|[raw|] rest Hq _ IH]; intros s; cbn [repl]; try apply Hstop.
  cbn in Hq. unfold is_prompt in Hq.
  destruct (String.eqb (PyStr.strip raw) ""); [apply IH |].
  destruct (String.eqb (PyStr.strip raw) "/q" || String.eqb (PyStr.strip raw) "exit");
    [apply Hstop |].
  destruct (String.eqb (PyStr.strip raw) "/c").
  { unfold bind, set_messages, say, in_host, emit. cbn.
    destruct (IH (Session (with_trace (host s) (trace (host s) ++ [EvCleared]))
                          [] (net s)))
      as (Hr & Hn & Hf & shown & Ht & Hs).
    rewrite Hr, Hn, Hf, Ht. cbn. repeat split.
    exists (EvCleared :: shown). split; [now rewrite <- app_assoc |].
    constructor; [now left | exact Hs]. }
  destruct (String.eqb (PyStr.strip raw) "/i"); [| discriminate].
  unfold bind, say, in_host, emit. cbn.
  destruct (IH (Session (with_trace (host s) (trace (host s) ++ [EvSystemInfo]))
                        (messages s) (net s)))
    as (Hr & Hn & Hf & shown & Ht & Hs).
  rewrite Hr, Hn, Hf, Ht. cbn. repeat split.
  exists (EvSystemInfo :: shown). split; [now rewrite <- app_assoc |].
  constructor; [now right | exact Hs].
Qed.

Lemma quiet_inputs_make_no_call_witness :
  fst (repl anthropic_cfg [Line "  "; Line "/i"; Line "/c"; Line "exit"; Line "hi"]
            waiting_session) = Ret tt /\
  net (snd (repl anthropic_cfg [Line "  "; Line "/i"; Line "/c"; Line "exit"]
                 waiting_session)) = failing_net.
Proof.
  split; [reflexivity |].
  apply (quiet_inputs_make_no_call
           anthropic_cfg [Line "  "; Line "/i"; Line "/c"; Line "exit"]).
  repeat constructor.
Defined.

(** ** A provider that keeps asking *)

Lemma run_tool_unknown (name : string) (args : json) (w : world) :
  lookup_key name TOOLS = None ->
  run_tool name args w = (Ret ("error: " +:+ PyStr.repr name), w).
Proof.
  intros H. unfold run_tool, try_except, call_tool. now rewrite H.
Qed.

(** A call to a Style-A provider takes the next outcome of the transport. *)
Lemma call_api_next (cfg : config) (msgs : list json) (system_prompt : string)
    (s : session) (outcome : result json) (rest : list (result json)) :
  is_gemini (PROVIDER cfg) = false ->
  net s = outcome :: rest ->
  exists w',
    call_api cfg msgs system_prompt s = (outcome, Session w' (messages s) rest) /\
    files w' = files (host s).
Proof.
  intros G Hnet. unfold call_api. rewrite G.
  unfold urlopen, bind, say, in_host, emit. cbn. rewrite Hnet.
  eexists. split; reflexivity.
Qed.

Lemma dispatch_block_unknown (id : json) (name k : string) (v : json)
    (kv : list (string * json)) (tool_results : list json)
    (w : world) (msgs : list json) (network : list (result json)) :
  lookup_key name TOOLS = None ->
  dispatch_block (tool_use_block id name (JObj ((k, v) :: kv))) tool_results
                 (Session w msgs network)
  = (Ret (tool_results ++ [tool_result_block id ("error: " +:+ PyStr.repr name)]),
     Session (printed (printed w (EvToolCall name v))
                      (EvToolResult ("error: " +:+ PyStr.repr name)))
             msgs network).
Proof.
  intros Hname.
  pose proof (run_tool_unknown name (JObj ((k, v) :: kv))
                               (printed w (EvToolCall name v)) Hname) as R.
  unfold dispatch_block, tool_use_block. cbn.
  unfold in_host, bind, say, in_host, emit, printed in *. cbn.
  rewrite R. reflexivity.
Qed.

(** The round in which the provider asks for a tool that is not
    registered: the loop answers with the error text. *)
Lemma unknown_tool_round_spec (cfg : config) (system_prompt : string)
    (id : json) (name k : string) (v : json) (kv : list (string * json))
    (s : session) (rest : list (result json)) :
  is_gemini (PROVIDER cfg) = false ->
  lookup_key name TOOLS = None ->
  net s = Ret (reply [tool_use_block id name (JObj ((k, v) :: kv))]) :: rest ->
  exists w',
    round cfg system_prompt s
    = (Ret [tool_result_block id ("error: " +:+ PyStr.repr name)],
       Session w'
               (messages s ++ [turn "assistant"
                                    (JArr [tool_use_block id name (JObj ((k, v) :: kv))])])
               rest) /\
    files w' = files (host s).
Proof.
  intros G Hname Hnet.
  destruct (call_api_next cfg (messages s) system_prompt s _ rest G Hnet)
    as (w1 & Hcall & Hfiles).
  unfold round, bind at 1, get_messages. unfold bind at 1. rewrite Hcall.
  cbn -[dispatch_block PyStr.repr String.append].
  unfold bind at 1 2. rewrite (dispatch_block_unknown id name k v kv [] _ _ _ Hname).
  cbn -[PyStr.repr String.append].
  eexists. split; [reflexivity | exact Hfiles].
Qed.

Lemma text_round_spec (cfg : config) (system_prompt text : string)
    (s : session) (rest : list (result json)) :
  is_gemini (PROVIDER cfg) = false ->
  net s = Ret (reply [text_block (JStr text)]) :: rest ->
  exists w',
    round cfg system_prompt s
    = (Ret [],
       Session w' (messages s ++ [turn "assistant" (JArr [text_block (JStr text)])])
               rest) /\
    files w' = files (host s).
Proof.
  intros G Hnet.
  destruct (call_api_next cfg (messages s) system_prompt s _ rest G Hnet)
    as (w1 & Hcall & Hfiles).
  unfold round, bind at 1, get_messages. unfold bind at 1. rewrite Hcall.
  cbn. eexists. split; [reflexivity | exact Hfiles].
Qed.

(** X18.  The loop has no cap on its rounds.  When a Style-A provider asks
    [n] times for a tool that is not registered and then answers with text,
    the loop runs [n + 1] rounds, for every [n]: each request is answered
    with the error text, and the conversation grows by two turns a round and
    the final assistant turn. *)
Theorem the_loop_has_no_round_limit
    (cfg : config) (system_prompt : string) (id : json) (name k : string)
    (v : json) (kv : list (string * json)) (text : string)
    (rest : list (result json)) (n : nat) :
  is_gemini (PROVIDER cfg) = false ->
  lookup_key name TOOLS = None ->
  forall (fuel : nat) (s : session),
    n < fuel ->
    net s = List.repeat (Ret (reply [tool_use_block id name (JObj ((k, v) :: kv))])) n
            ++ Ret (reply [text_block (JStr text)]) :: rest ->
    exists s',
      agent_loop cfg system_prompt fuel s = (Ret tt, s') /\
      messages s'
      = messages s ++ rounds n (unknown_tool_round id name (JObj ((k, v) :: kv)))
                   ++ [turn "assistant" (JArr [text_block (JStr text)])] /\
      net s' = rest /\
      files (host s') = files (host s).
Proof.
  intros G Hname. induction n as [|n IH]; intros fuel s Hfuel Hnet;
    (destruct fuel as [|fuel]; [lia |]); cbn [agent_loop List.repeat app] in *.
  - destruct (text_round_spec cfg system_prompt text s rest G Hnet)
      as (w' & Hround & Hfiles).
    unfold bind. rewrite Hround. eexists. split; [reflexivity |].
    cbn. repeat split. exact Hfiles.
  - destruct (unknown_tool_round_spec cfg system_prompt id name k v kv s _ G Hname Hnet)
      as (w' & Hround & Hfiles).
    unfold bind at 1. rewrite Hround. unfold bind at 1, append_turn.
    edestruct (IH fuel) as (s' & Hloop & Hm & Hn & Hf); [lia | | ].
    2:{ exists s'. split; [exact Hloop |]. split; [| split; [exact Hn |]].
        - rewrite Hm. cbn [messages]. rewrite <- !app_assoc. reflexivity.
        - rewrite Hf. exact Hfiles. }
    reflexivity.
Qed.

Lemma the_loop_has_no_round_limit_witness :
  exists s',
    agent_loop anthropic_cfg "be brief" 4
      (Session demo_world [turn "user" (JStr "clean up")]
               (List.repeat (Ret (reply [tool_use_block (JStr "t") "rm"
                                           (JObj [("path", JStr "a.txt")])])) 3
                ++ [Ret (reply [text_block (JStr "I give up")])]))
    = (Ret tt, s') /\
    length (messages s') = 8 /\ net s' = [].
Proof.
  destruct (the_loop_has_no_round_limit
              anthropic_cfg "be brief" (JStr "t") "rm" "path" (JStr "a.txt") []
              "I give up" [] 3 eq_refl eq_refl 4
              (Session demo_world [turn "user" (JStr "clean up")]
                 (List.repeat (Ret (reply [tool_use_block (JStr "t") "rm"
                                             (JObj [("path", JStr "a.txt")])])) 3
                  ++ [Ret (reply [text_block (JStr "I give up")])]))
              ltac:(lia) eq_refl)
    as (s' & Hloop & Hm & Hn & _).
  exists s'. split; [exact Hloop |]. split; [now rewrite Hm | exact Hn].
Defined.

(** ** The order of the roles *)

Lemma loop_keeps_dialogue (cfg : config) (system_prompt : string) (fuel : nat) :
  forall s,
    wp (agent_loop cfg system_prompt fuel)
       (fun r s' =>
          dialogue (messages s) -> awaits_reply (messages s) ->
          dialogue (messages s')) s.
Proof.
  induction fuel as [|fuel IH]; intros s; cbn [agent_loop].
  - unfold wp, hang. cbn. auto.
  - apply wp_bind. eapply wp_mono; [| apply round_spec].
    intros [results| |] s1 [_ Hr]; try (rewrite Hr; auto).
    destruct Hr as (content & blocks & Hm & _ & _ & _ & _).
    assert (Hreply : dialogue (messages s) -> awaits_reply (messages s) ->
                     dialogue (messages s1)).
    { intros Hd (before & u & Hs & Hu). rewrite Hm, Hs.
      apply dialogue_reply; [now rewrite <- Hs | exact Hu]. }
    destruct results as [|r results]; [exact Hreply |].
    apply wp_bind. unfold wp at 1, append_turn. cbn [fst snd].
    eapply wp_mono; [| apply IH].
    cbn [messages]. intros r' s2 Hloop Hd Hw. apply Hloop.
    + rewrite Hm. apply dialogue_results. rewrite <- Hm. now apply Hreply.
    + eexists _, _. split; reflexivity.
Qed.

Lemma repl_keeps_dialogue (cfg : config) (inputs : list user_event) :
  forall s,
    dialogue (messages s) ->
    wp (repl cfg inputs) (fun _ s' => dialogue (messages s')) s.
Proof.
  induction inputs as [|[raw|] rest IH]; intros s Hd; cbn [repl]; try exact Hd.
  destruct (String.eqb (PyStr.strip raw) ""); [now apply IH |].
  destruct (String.eqb (PyStr.strip raw) "/q" || String.eqb (PyStr.strip raw) "exit");
    [exact Hd |].
  destruct (String.eqb (PyStr.strip raw) "/c").
  { apply wp_bind. unfold wp at 1, set_messages. cbn [fst snd].
    apply wp_bind, wp_in_host. intros [[]| |] w'; cbn [messages];
      try apply dialogue_empty.
    apply IH. apply dialogue_empty. }
  destruct (String.eqb (PyStr.strip raw) "/i").
  { apply wp_bind, wp_in_host. intros [[]| |] w'; cbn [messages]; try exact Hd.
    now apply IH. }
  assert (Hp : wp (prompt_body cfg (PyStr.strip raw))
                  (fun _ s' => dialogue (messages s')) s).
  { unfold prompt_body. apply wp_bind. unfold wp at 1, append_turn.
    cbn [fst snd].
    match goal with |- wp _ _ ?s1 => set (s1' := s1) end.
    change (wp (agent_loop cfg (make_system_prompt cfg) (S (length (net s1'))))
               (fun _ s' => dialogue (messages s')) s1').
    eapply wp_mono; [| apply loop_keeps_dialogue].
    intros r s' H. apply H; subst s1'; cbn [messages].
    - now apply dialogue_prompt.
    - eexists _, _. split; reflexivity. }
  unfold wp in *. destruct (prompt_body cfg (PyStr.strip raw) s) as [[[]|e|] s1];
    cbn [fst snd] in Hp.
  - now apply IH.
  - destruct (breaks e); [exact Hp |].
    apply (wp_bind (say (EvError (exn_str e))) (fun _ => repl cfg rest)
                   (fun _ s' => dialogue (messages s'))).
    apply wp_in_host. intros [[]| |] w'; cbn [messages]; try exact Hp.
    now apply IH.
  - exact Hp.
Qed.

Lemma dialogue_turns (msgs : list json) :
  dialogue msgs -> each_turn in_its_place msgs.
Proof.
  induction 1 as [| msgs text _ IH | msgs u content _ IH Hu
                 | msgs content results _ IH].
  - apply each_turn_nil.
  - apply each_turn_snoc; [assumption |]. split; [discriminate | eauto].
  - apply each_turn_snoc; [assumption |]. rewrite last_snoc. split.
    + intros _. now exists u.
    + discriminate.
  - apply each_turn_snoc; [assumption |]. rewrite last_snoc. split; discriminate.
Qed.

(** X19.  In the conversation [main] records, every assistant turn comes
    directly after a user turn (a prompt or tool results), so two assistant
    turns are never adjacent, and the first turn is always the text of a
    user prompt. *)
Theorem assistant_turns_follow_user_turns
    (cfg : config) (w : world) (network : list (result json))
    (inputs : list user_event) :
  let msgs := messages (snd (main cfg w network inputs)) in
  (forall i t, msgs !! i = Some t -> role_of t = Some "assistant" ->
     exists j p, i = S j /\ msgs !! j = Some p /\ role_of p = Some "user") /\
  (forall t, msgs !! 0 = Some t -> exists text, t = turn "user" (JStr text)).
Proof.
  intros msgs.
  assert (Hd : dialogue msgs).
  { apply (repl_keeps_dialogue cfg inputs (Session w [] network)).
    apply dialogue_empty. }
  apply dialogue_turns in Hd. split.
  - intros i t Hi Hrole. destruct (Hd i t Hi) as [Ha _].
    destruct (Ha Hrole) as (p & Hp & Hu).
    destruct i as [|j]; [discriminate |]. now exists j, p.
  - intros t Ht. destruct (Hd 0 t Ht) as [_ Hfirst]. now apply Hfirst.
Qed.

Lemma assistant_turns_follow_user_turns_witness :
  let msgs := messages (snd (main anthropic_cfg demo_world nameless_call_net
                                  [Line "read a.txt"])) in
  exists j p, 3 = S j /\ msgs !! j = Some p /\ role_of p = Some "user".
Proof.
  intros msgs.
  apply (proj1 (assistant_turns_follow_user_turns
                  anthropic_cfg demo_world nameless_call_net [Line "read a.txt"])
               3 (turn "assistant" (JArr [text_block (JStr "done")])));
    reflexivity.
Defined.

(** After a failed call the next prompt is recorded behind the one that got
    no answer: user turns can be adjacent. *)
Example user_turns_can_be_adjacent :
  messages (snd (main anthropic_cfg demo_world failing_net [Line "hi"; Line "again"]))
  = [turn "user" (JStr "hi"); turn "user" (JStr "again")].
Proof. reflexivity. Qed.
